(** * nexus-haul: the traversal-and-transfer pipeline of [main.go]

    A shallow embedding of the Nexus artifact migrator.  Go strings are byte
    strings ([String.string]); a run-time panic is an explicit result
    ([Panics]); the goroutine bodies are functions into a small monad that
    records the calls a worker makes (HTTP round trips, body reads and
    closes, channel sends) together with the [defer] stack of the running
    function frame. *)

From Stdlib Require Import String Ascii List ZArith Bool Arith Lia.
Import ListNotations.

Local Open Scope string_scope.
Local Open Scope list_scope.

(** ** Run-time panics *)

Inductive runtime_error : Type :=
  | SliceBoundsOutOfRange (low len : nat).

Inductive Run (A : Type) : Type :=
  | Returns (a : A)
  | Panics (p : runtime_error).

Arguments Returns {A} a.
Arguments Panics {A} p.

Definition run_bind {A B : Type} (m : Run A) (k : A -> Run B) : Run B :=
  match m with
  | Returns a => k a
  | Panics p => Panics p
  end.

Declare Scope run_scope.
Delimit Scope run_scope with run.
Notation "x <- m ;; k" := (run_bind m (fun x => k))
  (at level 100, m at next level, right associativity) : run_scope.

(** ** The Go string operations the program uses *)

(** [s[low:]]: panics when [low] exceeds [len(s)]. *)
Definition slice_from (s : string) (low : nat) : Run string :=
  if (low <=? String.length s)%nat
  then Returns (substring low (String.length s - low) s)
  else Panics (SliceBoundsOutOfRange low (String.length s)).

(** [strings.HasSuffix(s, suffix)]:
    [len(s) >= len(suffix) && s[len(s)-len(suffix):] == suffix]. *)
Definition strings_HasSuffix (s suffix : string) : bool :=
  (String.length suffix <=? String.length s)%nat
  && (substring (String.length s - String.length suffix)
                (String.length suffix) s =? suffix)%string.

(** [strings.Replace(s, old, new, 1)] for a non-empty [old]: the text
    before the first occurrence of [old], then [new], then the rest. *)
Definition strings_Replace1 (s old new : string) : string :=
  if (old =? new)%string then s
  else match index 0 old s with
       | None => s
       | Some j =>
           substring 0 j s ++ new
             ++ substring (j + String.length old)
                          (String.length s - (j + String.length old)) s
       end.

(** ** Data model *)

#[warnings="-register-all"]
Inductive Asset : Type :=
  mkAsset (Type_ : string) (Leaf : bool) (NodeName : string) (Path : string)
          (Children : list Asset) (RepositoryId : string)
          (LocallyAvailable : bool) (ArtifactTimestamp : Z)
          (ArtifactUri : string) (PomUri : string) (GroupId : string)
          (ArtifactId : string) (Version : string) (Extension : string)
          (Packaing : string).

Definition Type_ (a : Asset) : string :=
  match a with mkAsset t _ _ _ _ _ _ _ _ _ _ _ _ _ _ => t end.
Definition Leaf (a : Asset) : bool :=
  match a with mkAsset _ l _ _ _ _ _ _ _ _ _ _ _ _ _ => l end.
Definition Path (a : Asset) : string :=
  match a with mkAsset _ _ _ p _ _ _ _ _ _ _ _ _ _ _ => p end.
Definition Children (a : Asset) : list Asset :=
  match a with mkAsset _ _ _ _ cs _ _ _ _ _ _ _ _ _ _ => cs end.
Definition PomUri (a : Asset) : string :=
  match a with mkAsset _ _ _ _ _ _ _ _ _ u _ _ _ _ _ => u end.

Record AssetToStream : Type := mkAssetToStream {
  sourceURL : string;
  targetURL : string;
  contentType : string
}.

Record configFile : Type := mkConfigFile {
  SourceURL : string;
  TargetURL : string;
  SourceDownloadURL : string;
  Workers : Z
}.

Record authFile : Type := mkAuthFile {
  SourceUser : string;
  SourcePassword : string;
  TargetUser : string;
  TargetPassword : string
}.

Record confInfo : Type := mkConfInfo {
  ci_configFile : configFile;
  ci_authFile : authFile
}.

(** ** The tree queries of the processor *)

(** [for _, a := range asset.Children] returns inside its first iteration. *)
Fixpoint hasArtifacts (asset : Asset) : bool :=
  match Children asset with
  | [] => false
  | a :: _ => if Leaf a then true else hasArtifacts a
  end.

(** The loop of [getGroups], [groups] being the slice built so far. *)
Fixpoint getGroups_loop (children : list Asset) (groups : list string)
  : Run (list string) :=
  match children with
  | [] => Returns groups
  | a :: rest =>
      if (Type_ a =? "G")%string
      then (p <- slice_from (Path a) 1 ;;
            getGroups_loop rest (groups ++ [p]))%run
      else getGroups_loop rest groups
  end.

Definition getGroups (asset : Asset) : Run (list string) :=
  getGroups_loop (Children asset) [].

(** [getArtifacts]; the inner [loop] is the [range] over the children with
    the slice [artifacts] built so far. *)
Fixpoint getArtifacts (asset : Asset) : Run (list string) :=
  (fix loop (children : list Asset) (artifacts : list string)
     : Run (list string) :=
     match children with
     | [] => Returns artifacts
     | a :: rest =>
         if Leaf a
         then (artifactURI <- slice_from (Path a) 1 ;;
               let artifacts := artifacts ++ [artifactURI] in
               if (0 <? String.length (PomUri a))%nat
               then loop rest
                      (artifacts ++ [strings_Replace1 artifactURI "jar" "pom"])
               else loop rest artifacts)%run
         else (sub <- getArtifacts a ;;
               loop rest (artifacts ++ sub))%run
     end) (Children asset) [].

(** The same loop with [getArtifacts] closed, for reasoning about it. *)
Fixpoint getArtifacts_loop (children : list Asset) (artifacts : list string)
  : Run (list string) :=
  match children with
  | [] => Returns artifacts
  | a :: rest =>
      if Leaf a
      then (artifactURI <- slice_from (Path a) 1 ;;
            let artifacts := artifacts ++ [artifactURI] in
            if (0 <? String.length (PomUri a))%nat
            then getArtifacts_loop rest
                   (artifacts ++ [strings_Replace1 artifactURI "jar" "pom"])
            else getArtifacts_loop rest artifacts)%run
      else (sub <- getArtifacts a ;;
            getArtifacts_loop rest (artifacts ++ sub))%run
  end.

(** ** The environment: HTTP, files and JSON decoding *)

Inductive error : Type :=
  | ErrURL (method url : string)
  | ErrTransport (method url : string)
  | ErrUnexpectedEOF (conn : nat)
  | ErrStatus (url : string) (code : Z) (body : string)
  | ErrReadFile (filename : string)
  | ErrJSON (data : string).

(** A response body: [content] is what the server sends in full, [failAt]
    the number of bytes after which reading fails, if it does. *)
Record Body : Type := mkBody {
  conn : nat;
  content : string;
  failAt : option nat
}.

Record Request : Type := mkRequest {
  Method : string;
  URL : string;
  BasicAuth : option (string * string);
  Header : list (string * string);
  ReqBody : option Body
}.

Record Response : Type := mkResponse {
  StatusCode : Z;
  RespBody : Body
}.

Record Env : Type := mkEnv {
  url_Parse : string -> option error;
  RoundTrip : Request -> error + Response;
  json_Unmarshal_Data : string -> error + Asset;
  ioutil_ReadFile : string -> error + string;
  json_Unmarshal_configFile : string -> configFile -> configFile * option error;
  json_Unmarshal_authFile : string -> authFile -> authFile * option error
}.

Definition http_StatusOK : Z := 200.
Definition http_StatusCreated : Z := 201.

(** [http.NewRequest(method, url, body)] *)
Definition http_NewRequest (env : Env) (method url : string)
  (body : option Body) : error + Request :=
  match url_Parse env url with
  | Some e => inl e
  | None => inr (mkRequest method url None [] body)
  end.

Definition SetBasicAuth (req : Request) (user password : string) : Request :=
  mkRequest (Method req) (URL req) (Some (user, password)) (Header req)
            (ReqBody req).

Definition Header_Add (req : Request) (key value : string) : Request :=
  mkRequest (Method req) (URL req) (BasicAuth req)
            (Header req ++ [(key, value)]) (ReqBody req).

Definition Header_Set (req : Request) (key value : string) : Request :=
  mkRequest (Method req) (URL req) (BasicAuth req)
            (filter (fun kv => negb (fst kv =? key)%string) (Header req)
               ++ [(key, value)])
            (ReqBody req).

(** What [ioutil.ReadAll] returns: the bytes read so far and the error. *)
Definition read_all (b : Body) : string * option error :=
  match failAt b with
  | None => (content b, None)
  | Some k => (substring 0 k (content b), Some (ErrUnexpectedEOF (conn b)))
  end.

(** ** Worker actions *)

Inductive event : Type :=
  | Stdout (line : string)
  | Do (req : Request)
  | ReadAll (b : Body)
  | Close (b : Body)
  | Send_downloadCh (url : string)
  | Send_unmarshalCh (data : string)
  | Send_processCh (asset : Asset)
  | Send_streamCh (job : AssetToStream)
  | Send_errCh (e : error).

(** A running function: the calls made so far, and the calls its [defer]
    statements have registered (latest first), to run when it returns. *)
Record frame : Type := mkFrame {
  trace : list event;
  deferred : list event
}.

Definition Go (A : Type) : Type := frame -> A * frame.

Definition ret {A : Type} (a : A) : Go A := fun f => (a, f).

Definition bind {A B : Type} (m : Go A) (k : A -> Go B) : Go B :=
  fun f => let (a, f') := m f in k a f'.

Declare Scope go_scope.
Delimit Scope go_scope with go.
Notation "x <- m ;; k" := (bind m (fun x => k))
  (at level 100, m at next level, right associativity) : go_scope.
Notation "m ;; k" := (bind m (fun _ => k))
  (at level 100, right associativity) : go_scope.

Definition emit (e : event) : Go unit :=
  fun f => (tt, mkFrame (trace f ++ [e]) (deferred f)).

Definition defer (e : event) : Go unit :=
  fun f => (tt, mkFrame (trace f) (e :: deferred f)).

(** A function call: the body runs in a frame of its own, and its
    deferred calls run when it returns. *)
Definition call {A : Type} (body : Go A) : Go A :=
  fun f =>
    let (a, f') := body (mkFrame (trace f) []) in
    (a, mkFrame (trace f' ++ deferred f') (deferred f)).

Fixpoint for_range {A : Type} (l : list A) (body : A -> Go unit) : Go unit :=
  match l with
  | [] => ret tt
  | x :: rest => (body x ;; for_range rest body)%go
  end.

(** [client.Do(req)]: the round trip is one event.  What the transport
    does with the body of the request while it sends it is not part of the
    trace, which records the calls of the program itself. *)
Definition client_Do (env : Env) (req : Request) : Go (error + Response) :=
  (emit (Do req) ;; ret (RoundTrip env req))%go.

Definition ioutil_ReadAll (b : Body) : Go (string * option error) :=
  (emit (ReadAll b) ;; ret (read_all b))%go.

(** ** The pipeline functions *)

Section Pipeline.

Variable env : Env.
Variable ci : confInfo.

(** The result pair [([]byte, error)], [nil] bytes being the empty string. *)
Definition httpDownload (url : string) : Go (string * option error) :=
  call
    (match http_NewRequest env "GET" url None with
     | inl err => ret ("", Some err)
     | inr req =>
         let req := SetBasicAuth req (SourceUser (ci_authFile ci))
                                 (SourcePassword (ci_authFile ci)) in
         let req := Header_Add req "Accept" "application/json" in
         resp <- client_Do env req ;;
         match resp with
         | inl err => ret ("", Some err)
         | inr resp =>
             defer (Close (RespBody resp)) ;;
             if negb (StatusCode resp =? http_StatusOK)%Z
             then
               r <- ioutil_ReadAll (RespBody resp) ;;
               ret ("", Some (ErrStatus url (StatusCode resp) (fst r)))
             else
               r <- ioutil_ReadAll (RespBody resp) ;;
               ret (fst r, None)
         end
     end)%go.

Definition httpUpload (url : string) (body : Body) (contentType : string)
  : Go (option error) :=
  call
    (emit (Stdout ("streaming TO: " ++ url)) ;;
     match http_NewRequest env "PUT" url (Some body) with
     | inl err => ret (Some err)
     | inr req =>
         let req := SetBasicAuth req (TargetUser (ci_authFile ci))
                                 (TargetPassword (ci_authFile ci)) in
         let req := Header_Set req "Content-Type" contentType in
         resp <- client_Do env req ;;
         match resp with
         | inl err => ret (Some err)
         | inr resp =>
             defer (Close (RespBody resp)) ;;
             if negb (StatusCode resp =? http_StatusCreated)%Z
             then
               r <- ioutil_ReadAll (RespBody resp) ;;
               ret (Some (ErrStatus url (StatusCode resp) (fst r)))
             else ret None
         end
     end)%go.

(** One turn of the [for]/[select] loop of each goroutine, on the message
    it received. *)

Definition downloader_body (url : string) : Go unit :=
  (emit (Stdout ("downloader url " ++ url)) ;;
   r <- httpDownload url ;;
   match snd r with
   | Some err => emit (Send_errCh err)
   | None => emit (Send_unmarshalCh (fst r))
   end)%go.

Definition unmarshaler_body (data : string) : Go unit :=
  match json_Unmarshal_Data env data with
  | inl err => emit (Send_errCh err)
  | inr asset => emit (Send_processCh asset)
  end.

Definition processor_body (asset : Asset) : Go (Run unit) :=
  if hasArtifacts asset
  then
    match getArtifacts asset with
    | Panics p => ret (Panics p)
    | Returns artifacts =>
        (for_range artifacts (fun artifact =>
           let sURL := (SourceDownloadURL (ci_configFile ci) ++ artifact)%string in
           let tURL := (TargetURL (ci_configFile ci) ++ artifact)%string in
           let contentType :=
             if strings_HasSuffix artifact ".pom"
             then "application/xml"
             else "application/java-archive" in
           emit (Send_streamCh (mkAssetToStream sURL tURL contentType))) ;;
         ret (Returns tt))%go
    end
  else
    match getGroups asset with
    | Panics p => ret (Panics p)
    | Returns groups =>
        (for_range groups (fun g =>
           let rootURL := (SourceURL (ci_configFile ci) ++ g)%string in
           emit (Send_downloadCh rootURL)) ;;
         ret (Returns tt))%go
    end.

(** The [defer] of [streamer] is registered in the frame of [streamer]
    itself, whose loop has no exit. *)
Definition streamer_body (assetToStream : AssetToStream) : Go unit :=
  match http_NewRequest env "GET" (sourceURL assetToStream) None with
  | inl err => emit (Send_errCh err)
  | inr req =>
      let req := SetBasicAuth req (SourceUser (ci_authFile ci))
                              (SourcePassword (ci_authFile ci)) in
      let req := Header_Add req "Accept" "application/json" in
      (resp <- client_Do env req ;;
       match resp with
       | inl err => emit (Send_errCh err)
       | inr resp =>
           defer (Close (RespBody resp)) ;;
           err <- httpUpload (targetURL assetToStream) (RespBody resp)
                             (contentType assetToStream) ;;
           match err with
           | Some err => emit (Send_errCh err)
           | None => ret tt
           end
       end)%go
  end.

(** The goroutines on the messages they receive, in order. *)
Definition downloader (urls : list string) : Go unit :=
  for_range urls downloader_body.

Definition streamer (jobs : list AssetToStream) : Go unit :=
  for_range jobs streamer_body.

End Pipeline.

Definition start : frame := mkFrame [] [].

(** ** Startup *)

Record flags : Type := mkFlags {
  nexusMigratorConfigFile : string;
  nexusMigratorAuthFile : string
}.

Definition default_flags : flags :=
  mkFlags "./migrator-conf.json" "./migrator-auth.json".

(** The package-level variables [cf], [af] and [ci]. *)
Record globals : Type := mkGlobals {
  cf : configFile;
  af : authFile;
  ci : confInfo
}.

Definition zero_configFile : configFile := mkConfigFile "" "" "" 0.
Definition zero_authFile : authFile := mkAuthFile "" "" "" "".
Definition zero_globals : globals :=
  mkGlobals zero_configFile zero_authFile
            (mkConfInfo zero_configFile zero_authFile).

Definition readFile (env : Env) (filename : string) : error + string :=
  match ioutil_ReadFile env filename with
  | inl err => inl err
  | inr data => inr data
  end.

Definition processConfigAndAuthFiles (env : Env) (fl : flags) (g : globals)
  : globals * option error :=
  let g := mkGlobals zero_configFile zero_authFile (ci g) in
  match readFile env (nexusMigratorConfigFile fl) with
  | inl err => (g, Some err)
  | inr data =>
      let (cf', err) := json_Unmarshal_configFile env data (cf g) in
      let g := mkGlobals cf' (af g) (ci g) in
      match err with
      | Some err => (g, Some err)
      | None =>
          match readFile env (nexusMigratorAuthFile fl) with
          | inl err => (g, Some err)
          | inr data =>
              let (af', err) := json_Unmarshal_authFile env data (af g) in
              let g := mkGlobals (cf g) af' (ci g) in
              match err with
              | Some err => (g, Some err)
              | None => (mkGlobals (cf g) (af g) (mkConfInfo (cf g) (af g)),
                         None)
              end
          end
      end
  end.

Inductive goroutine : Type :=
  | go_downloader | go_unmarshaler | go_processor | go_streamer.

(** The spawning loop of [main]: [workers] is counted down to below 1. *)
Fixpoint spawn_loop (fuel : nat) (workers : Z) : list goroutine :=
  match fuel with
  | O => []
  | S fuel' =>
      if (workers <? 1)%Z then []
      else [go_downloader; go_unmarshaler; go_processor; go_streamer]
             ++ spawn_loop fuel' (workers - 1)
  end.

(** How [main] ends up: stopped by a fatal error, or in its error-printing
    loop with the goroutines started and [downloadCh] seeded. *)
Inductive outcome : Type :=
  | Fatal (err : error)
  | Serving (started : list goroutine) (downloadCh : list string).

(** The value [processConfigAndAuthFiles] returns is not looked at. *)
Definition main (env : Env) (fl : flags) : outcome :=
  let (g, _) := processConfigAndAuthFiles env fl zero_globals in
  let workers := Workers (ci_configFile (ci g)) in
  Serving (spawn_loop (S (Z.to_nat workers)) workers)
          [SourceURL (ci_configFile (ci g))].

(** ** What the processor's queries are said to compute *)

(** The nodes met when going down through the first child at each level. *)
Fixpoint first_child_chain (asset : Asset) : list Asset :=
  match Children asset with
  | [] => []
  | a :: _ => a :: first_child_chain a
  end.

(** The leaves the walk of [getArtifacts] meets, in order: the leaf
    children of the node and of every non-leaf node below it. *)
Fixpoint leaves (asset : Asset) : list Asset :=
  (fix walk (children : list Asset) : list Asset :=
     match children with
     | [] => []
     | a :: rest => (if Leaf a then [a] else leaves a) ++ walk rest
     end) (Children asset).

Fixpoint leaves_of (children : list Asset) : list Asset :=
  match children with
  | [] => []
  | a :: rest => (if Leaf a then [a] else leaves a) ++ leaves_of rest
  end.

(** [a] is met by the walk from [n]: it is a child of [n], or it is met
    by the walk from a non-leaf child of [n]. *)
Inductive walked : Asset -> Asset -> Prop :=
  | walked_child n a : In a (Children n) -> walked n a
  | walked_below n g a :
      In g (Children n) -> Leaf g = false -> walked g a -> walked n a.

(** A string without its first byte. *)
Definition drop_first (s : string) : string :=
  match s with
  | EmptyString => EmptyString
  | String _ rest => rest
  end.

Definition has_path (a : Asset) : Prop := Path a <> EmptyString.

Definition has_pom (a : Asset) : bool := negb (PomUri a =? "")%string.

(** [old] occurs in [s] at position [j]. *)
Definition occurs_at (old s : string) (j : nat) : Prop :=
  exists pre post, s = (pre ++ old ++ post)%string /\ String.length pre = j.

(** [r] is [s] with its first occurrence of [old] replaced by [new], or
    [s] itself when [old] does not occur in it. *)
Definition first_replaced (old new s r : string) : Prop :=
  (r = s /\ forall j, ~ occurs_at old s j)
  \/ (exists pre post,
        s = (pre ++ old ++ post)%string
        /\ r = (pre ++ new ++ post)%string
        /\ forall j, j < String.length pre -> ~ occurs_at old s j).

(** The paths one leaf stands for: its path without the first byte, and
    the descriptor path derived from it when the leaf has a [pomUri]. *)
Definition leaf_paths (a : Asset) : list string :=
  let artifactURI := drop_first (Path a) in
  if has_pom a
  then [artifactURI; strings_Replace1 artifactURI "jar" "pom"]
  else [artifactURI].

Definition is_group (a : Asset) : bool := (Type_ a =? "G")%string.

Definition content_type_of (path : string) : string :=
  if strings_HasSuffix path ".pom" then "application/xml"
  else "application/java-archive".

Definition transfer_job (c : confInfo) (path : string) : AssetToStream :=
  mkAssetToStream (SourceDownloadURL (ci_configFile c) ++ path)
                  (TargetURL (ci_configFile c) ++ path)
                  (content_type_of path).

(** The events of a worker action run from an empty frame. *)
Definition events {A : Type} (m : Go A) : list event := trace (snd (m start)).

Definition pending {A : Type} (m : Go A) : list event :=
  deferred (snd (m start)).

Definition is_Do_PUT (e : event) : bool :=
  match e with
  | Do req => (Method req =? "PUT")%string
  | _ => false
  end.

Definition is_Send_errCh (e : event) : bool :=
  match e with
  | Send_errCh _ => true
  | _ => false
  end.

Definition is_ReadAll (e : event) : bool :=
  match e with
  | ReadAll _ => true
  | _ => false
  end.

Definition is_Close (e : event) : bool :=
  match e with
  | Close _ => true
  | _ => false
  end.

(** The authenticated GET that [httpDownload] and [streamer] send. *)
Definition source_request (c : confInfo) (url : string) : Request :=
  mkRequest "GET" url
            (Some (SourceUser (ci_authFile c), SourcePassword (ci_authFile c)))
            [("Accept", "application/json")] None.

(** The authenticated PUT that [httpUpload] sends. *)
Definition target_request (c : confInfo) (url : string) (body : Body)
  (contentType : string) : Request :=
  mkRequest "PUT" url
            (Some (TargetUser (ci_authFile c), TargetPassword (ci_authFile c)))
            [("Content-Type", contentType)] (Some body).

(** ** Sample inputs *)

Definition node (type_ : string) (leaf : bool) (path : string)
  (children : list Asset) (pomUri : string) : Asset :=
  mkAsset type_ leaf "" path children "" false 0 "" pomUri "" "" "" "" "".

Definition sample_conf : confInfo :=
  mkConfInfo
    (mkConfigFile "http://src/tree/" "http://dst/repo/" "http://src/get/" 2)
    (mkAuthFile "reader" "r-secret" "writer" "w-secret").

(** The scenario of the specification: a leaf [lib-1.0.jar] with a
    descriptor. *)
Definition releases_node : Asset :=
  node "G" false "/releases"
       [node "A" true "/releases/lib-1.0.jar" [] "/releases/lib-1.0.pom"] "".

Definition root_node : Asset :=
  node "G" false "/" [node "G" false "/releases" [] ""] "".

Definition leaf_without_path : Asset :=
  node "G" false "/releases" [node "A" true "" [] ""] "".

Definition leaf_without_separator : Asset :=
  node "G" false "/releases" [node "A" true "lib-1.0.jar" [] ""] "".

Definition group_without_path : Asset :=
  node "G" false "/" [node "G" false "" [] ""] "".

(** A source that answers every GET with [status] and [body], and a target
    that answers every PUT with 201. *)
Definition http_env (status : Z) (body : Body) : Env :=
  mkEnv (fun _ => None)
        (fun req =>
           if (Method req =? "GET")%string
           then inr (mkResponse status body)
           else inr (mkResponse 201 (mkBody 9 "" None)))
        (fun data => inl (ErrJSON data))
        (fun name => inl (ErrReadFile name))
        (fun _ c => (c, None))
        (fun _ a => (a, None)).

Definition not_found_body : Body := mkBody 1 "404 Not Found" None.
Definition jar_body : Body := mkBody 1 "PK-jar-bytes" None.
Definition truncated_listing : Body :=
  mkBody 1 "{ data: { type: G, children: [] } }" (Some 8).

Definition sample_job : AssetToStream :=
  transfer_job sample_conf "releases/lib-1.0.jar".

Definition next_job : AssetToStream :=
  transfer_job sample_conf "releases/lib-1.0.pom".

(** A host on which the configuration file exists and decodes, and the
    authentication file is missing. *)
Definition host_without_auth_file : Env :=
  mkEnv (fun _ => None)
        (fun req => inl (ErrTransport (Method req) (URL req)))
        (fun data => inl (ErrJSON data))
        (fun name =>
           if (name =? "./migrator-conf.json")%string
           then inr "{...}" else inl (ErrReadFile name))
        (fun _ _ => (ci_configFile sample_conf, None))
        (fun _ a => (a, None)).

(** ** Further vocabulary for the facts about the workers *)

Definition is_Do_GET (e : event) : bool :=
  match e with
  | Do req => (Method req =? "GET")%string
  | _ => false
  end.

Definition is_Send_streamCh (e : event) : bool :=
  match e with
  | Send_streamCh _ => true
  | _ => false
  end.

Definition is_Send_downloadCh (e : event) : bool :=
  match e with
  | Send_downloadCh _ => true
  | _ => false
  end.

(** A send on any of the five channels. *)
Definition is_send (e : event) : bool :=
  match e with
  | Send_downloadCh _ | Send_unmarshalCh _ | Send_processCh _
  | Send_streamCh _ | Send_errCh _ => true
  | _ => false
  end.

(** The answer the source gives to the GET for [url], when the request
    can be built and the round trip succeeds. *)
Definition source_response (env : Env) (c : confInfo) (url : string)
  : option Response :=
  match url_Parse env url with
  | Some _ => None
  | None =>
      match RoundTrip env (source_request c url) with
      | inl _ => None
      | inr resp => Some resp
      end
  end.

(** [m] returns [a] and, in whatever frame it runs, adds the calls [t] to
    the trace and the calls [d] to the deferred ones. *)
Definition appends {A : Type} (m : Go A) (a : A) (t d : list event) : Prop :=
  forall fr, m fr = (a, mkFrame (trace fr ++ t) (d ++ deferred fr)).

Definition writes {A : Type} (m : Go A) : Prop :=
  exists a t d, appends m a t d.

Definition goroutine_eq_dec (x y : goroutine) : {x = y} + {x <> y}.
Proof. decide equality. Defined.

(** The other two goroutines on the messages they receive, in order.  A
    panic in the processor ends the goroutine (and with it the process):
    the nodes after it are not looked at. *)
Definition unmarshaler (env : Env) (bodies : list string) : Go unit :=
  for_range bodies (unmarshaler_body env).

Fixpoint processor (c : confInfo) (assets : list Asset) : Go (Run unit) :=
  match assets with
  | [] => ret (Returns tt)
  | asset :: rest =>
      (r <- processor_body c asset ;;
       match r with
       | Panics p => ret (Panics p)
       | Returns _ => processor c rest
       end)%go
  end.

(** ** Further sample inputs *)

(** A source that answers every GET with [status] and [body], and a target
    that answers every PUT with [put_status] and [put_body]. *)
Definition transfer_env (status : Z) (body : Body) (put_status : Z)
  (put_body : Body) : Env :=
  mkEnv (fun _ => None)
        (fun req =>
           if (Method req =? "GET")%string
           then inr (mkResponse status body)
           else inr (mkResponse put_status put_body))
        (fun data => inl (ErrJSON data))
        (fun name => inl (ErrReadFile name))
        (fun _ c => (c, None))
        (fun _ a => (a, None)).

(** No URL can be parsed. *)
Definition no_url_env : Env :=
  mkEnv (fun url => Some (ErrURL "" url))
        (fun req => inl (ErrTransport (Method req) (URL req)))
        (fun data => inl (ErrJSON data))
        (fun name => inl (ErrReadFile name))
        (fun _ c => (c, None))
        (fun _ a => (a, None)).

(** The URLs of the target cannot be parsed; the source answers 200. *)
Definition no_target_url_env : Env :=
  mkEnv (fun url =>
           if prefix "http://dst/" url then Some (ErrURL "" url) else None)
        (fun req => inr (mkResponse 200 jar_body))
        (fun data => inl (ErrJSON data))
        (fun name => inl (ErrReadFile name))
        (fun _ c => (c, None))
        (fun _ a => (a, None)).

(** Every URL parses and every round trip fails. *)
Definition unreachable_env : Env :=
  mkEnv (fun _ => None)
        (fun req => inl (ErrTransport (Method req) (URL req)))
        (fun data => inl (ErrJSON data))
        (fun name => inl (ErrReadFile name))
        (fun _ c => (c, None))
        (fun _ a => (a, None)).

Definition forbidden_body : Body := mkBody 2 "403 Forbidden" None.

(** A host with both files, which decode to [sample_conf]. *)
Definition host_with_files : Env :=
  mkEnv (fun _ => None)
        (fun req => inl (ErrTransport (Method req) (URL req)))
        (fun data => inl (ErrJSON data))
        (fun name => inr name)
        (fun _ _ => (ci_configFile sample_conf, None))
        (fun _ _ => (ci_authFile sample_conf, None)).

Definition created_body : Body := mkBody 9 "201 Created" None.

Definition group_without_separator : Asset :=
  node "G" false "/" [node "G" false "releases" [] ""] "".

(** * Facts *)

(** ** Go strings *)

Section GoStrings.

Local Open Scope nat_scope.

Lemma string_length_app (s t : string) :
  String.length (s ++ t) = String.length s + String.length t.
Proof. induction s as [|c s IH]; simpl; [reflexivity | now rewrite IH]. Qed.

Lemma app_assoc_string (s t u : string) :
  ((s ++ t) ++ u = s ++ t ++ u)%string.
Proof. induction s as [|c s IH]; simpl; [reflexivity | now rewrite IH]. Qed.

Lemma app_empty_r (s : string) : (s ++ "")%string = s.
Proof. induction s as [|c s IH]; simpl; [reflexivity | now rewrite IH]. Qed.

Lemma substring_whole (s : string) : substring 0 (String.length s) s = s.
Proof. induction s as [|c s IH]; simpl; [reflexivity | now rewrite IH]. Qed.

Lemma substring_skip (pre s : string) (m : nat) :
  substring (String.length pre) m (pre ++ s) = substring 0 m s.
Proof. induction pre as [|c pre IH]; simpl; [reflexivity | exact IH]. Qed.

Lemma substring_skip_more (pre s : string) (k m : nat) :
  substring (String.length pre + k) m (pre ++ s) = substring k m s.
Proof. induction pre as [|c pre IH]; simpl; [reflexivity | exact IH]. Qed.

Lemma substring_head (pre s : string) :
  substring 0 (String.length pre) (pre ++ s) = pre.
Proof.
  induction pre as [|c pre IH]; simpl.
  - now destruct s.
  - now rewrite IH.
Qed.

(** Any string splits at a position within it. *)
Lemma substring_split (s : string) (j : nat) :
  j <= String.length s ->
  s = (substring 0 j s ++ substring j (String.length s - j) s)%string.
Proof.
  revert j; induction s as [|c s IH]; intros [|j] Hj; simpl in *.
  - reflexivity.
  - lia.
  - now rewrite substring_whole.
  - f_equal. apply IH. lia.
Qed.

Lemma substring_length_le (s : string) (j m : nat) :
  String.length (substring j m s) <= m.
Proof.
  revert j m; induction s as [|c s IH]; intros [|j] [|m]; simpl; try lia.
  - specialize (IH 0 m). lia.
  - apply (IH j 0).
  - apply (IH j (S m)).
Qed.

Lemma substring_length (s : string) (j m : nat) :
  j + m <= String.length s -> String.length (substring j m s) = m.
Proof.
  revert j m; induction s as [|c s IH]; intros [|j] [|m] H; simpl in *;
    try lia.
  - rewrite (IH 0 m); lia.
  - apply (IH j 0). lia.
  - apply (IH j (S m)). lia.
Qed.

(** A substring of full length starts inside the string. *)
Lemma substring_eq_in_range (s old : string) (j : nat) :
  old <> EmptyString ->
  substring j (String.length old) s = old ->
  j + String.length old <= String.length s.
Proof.
  revert j old; induction s as [|c s IH]; intros j old Hne H.
  - destruct j, old; simpl in H; congruence.
  - destruct j as [|j].
    + destruct old as [|d old]; [congruence|].
      cbn [String.length substring] in H. injection H as Hc Ht.
      destruct old as [|e old]; [simpl; lia|].
      specialize (IH 0 (String e old) ltac:(discriminate) Ht). simpl in *. lia.
    + cbn [substring] in H. specialize (IH j old Hne H). simpl. lia.
Qed.

Lemma substring_split3 (s : string) (j m : nat) :
  j + m <= String.length s ->
  s = (substring 0 j s ++ substring j m s
         ++ substring (j + m) (String.length s - (j + m)) s)%string.
Proof.
  revert j; induction s as [|c s IH]; intros [|j] Hj.
  - simpl in Hj. assert (m = 0) as -> by lia. reflexivity.
  - simpl in Hj. lia.
  - change (substring 0 0 (String c s)) with EmptyString.
    cbn [append Nat.add]. now apply substring_split.
  - cbn [substring append String.length Nat.add Nat.sub].
    f_equal. apply IH. simpl in Hj. lia.
Qed.

Lemma occurs_at_substring (old s : string) (j : nat) :
  old <> EmptyString ->
  occurs_at old s j <-> substring j (String.length old) s = old.
Proof.
  intros Hne; split.
  - intros (pre & post & -> & <-).
    rewrite substring_skip. apply substring_head.
  - intros H.
    pose proof (substring_eq_in_range s old j Hne H) as Hr.
    exists (substring 0 j s),
      (substring (j + String.length old)
                 (String.length s - (j + String.length old)) s).
    split.
    + rewrite <- H at 1. now apply substring_split3.
    + apply substring_length. lia.
Qed.

Lemma slice_from_1_cons (c : ascii) (rest : string) :
  slice_from (String c rest) 1 = Returns rest.
Proof.
  unfold slice_from. cbn [String.length Nat.leb Nat.sub substring].
  now rewrite Nat.sub_0_r, substring_whole.
Qed.

Lemma slice_from_1_empty :
  slice_from EmptyString 1 = Panics (SliceBoundsOutOfRange 1 0).
Proof. reflexivity. Qed.

Lemma slice_from_1 (s : string) :
  slice_from s 1
  = match s with
    | EmptyString => Panics (SliceBoundsOutOfRange 1 0)
    | String _ rest => Returns rest
    end.
Proof. destruct s; [reflexivity | apply slice_from_1_cons]. Qed.

Lemma slice_from_1_nonempty (s : string) :
  s <> EmptyString -> slice_from s 1 = Returns (drop_first s).
Proof. destruct s; [congruence | intros _; apply slice_from_1_cons]. Qed.

(** [strings.HasSuffix] holds exactly of the strings that end in the
    suffix. *)
Lemma strings_HasSuffix_spec (s suffix : string) :
  strings_HasSuffix s suffix = true
  <-> exists pre, s = (pre ++ suffix)%string.
Proof.
  unfold strings_HasSuffix. rewrite andb_true_iff, Nat.leb_le, String.eqb_eq.
  split.
  - intros [Hlen Hsub].
    exists (substring 0 (String.length s - String.length suffix) s).
    pose proof (substring_split s (String.length s - String.length suffix)
                  ltac:(lia)) as Hs.
    replace (String.length s - (String.length s - String.length suffix))
      with (String.length suffix) in Hs by lia.
    now rewrite Hsub in Hs.
  - intros [pre ->]. rewrite string_length_app. split; [lia|].
    replace (String.length pre + String.length suffix - String.length suffix)
      with (String.length pre) by lia.
    rewrite substring_skip. apply substring_whole.
Qed.

(** [index 0 old s] is the position of the first occurrence of [old]. *)
Lemma index_first_occurrence (s old : string) (j : nat) :
  old <> EmptyString ->
  index 0 old s = Some j ->
  s = (substring 0 j s ++ old
         ++ substring (j + String.length old)
                      (String.length s - (j + String.length old)) s)%string
  /\ forall p, p < String.length (substring 0 j s) -> ~ occurs_at old s p.
Proof.
  intros Hne Hi.
  pose proof (index_correct1 _ _ _ _ Hi) as Hj.
  pose proof (substring_eq_in_range _ _ _ Hne Hj) as Hr.
  split.
  - rewrite <- Hj at 1. now apply substring_split3.
  - intros p Hp Hocc. rewrite substring_length in Hp by lia.
    apply occurs_at_substring in Hocc; [|assumption].
    exact (index_correct2 _ _ _ _ Hi p (Nat.le_0_l p) Hp Hocc).
Qed.

Lemma index_no_occurrence (s old : string) :
  old <> EmptyString ->
  index 0 old s = None ->
  forall p, ~ occurs_at old s p.
Proof.
  intros Hne Hi p Hocc. apply occurs_at_substring in Hocc; [|assumption].
  exact (index_correct3 _ p _ _ Hi Hne (Nat.le_0_l p) Hocc).
Qed.

(** [strings.Replace(s, old, new, 1)] replaces the first occurrence of
    [old], and leaves [s] as it is when there is none. *)
Lemma strings_Replace1_first (s old new : string) :
  old <> EmptyString ->
  first_replaced old new s (strings_Replace1 s old new).
Proof.
  intros Hne. unfold strings_Replace1, first_replaced.
  destruct (index 0 old s) as [j|] eqn:Hi.
  - destruct (index_first_occurrence s old j Hne Hi) as [Hs Hfirst].
    right. do 2 eexists. split; [exact Hs|]. split; [|exact Hfirst].
    destruct (String.eqb_spec old new) as [<-|_]; [exact Hs | reflexivity].
  - left. split; [now destruct (old =? new)%string|].
    now apply index_no_occurrence.
Qed.

End GoStrings.

(** ** Trees *)

(** Induction on a tree, with the property known of all children. *)
Lemma Asset_tree_ind (P : Asset -> Prop) :
  (forall a, Forall P (Children a) -> P a) -> forall a, P a.
Proof.
  intros step. fix IH 1. intros a. apply step.
  destruct a as [t l nn p cs r la ts au pu g ai v e pk]. simpl.
  induction cs as [|c cs IHcs]; constructor; [apply IH | exact IHcs].
Qed.

Lemma getArtifacts_unfold (asset : Asset) :
  getArtifacts asset = getArtifacts_loop (Children asset) [].
Proof.
  destruct asset as [t l nn p cs r la ts au pu g ai v e pk]. simpl.
  match goal with
  | |- ?loop cs [] = _ =>
      enough (H : forall acc, loop cs acc = getArtifacts_loop cs acc)
        by apply H
  end.
  induction cs as [|c cs IH]; intros acc; simpl; [reflexivity|].
  destruct (Leaf c).
  - destruct (slice_from (Path c) 1); simpl; [|reflexivity].
    destruct (0 <? String.length (PomUri c))%nat; apply IH.
  - destruct (getArtifacts c); simpl; [apply IH | reflexivity].
Qed.

Lemma leaves_unfold (asset : Asset) :
  leaves asset = leaves_of (Children asset).
Proof.
  destruct asset as [t l nn p cs r la ts au pu g ai v e pk]. simpl.
  induction cs as [|c cs IH]; simpl; [reflexivity | now rewrite IH].
Qed.

Lemma has_pom_len (a : Asset) :
  (0 <? String.length (PomUri a))%nat = has_pom a.
Proof. unfold has_pom. now destruct (PomUri a). Qed.

Lemma hasArtifacts_unfold (asset : Asset) :
  hasArtifacts asset
  = match Children asset with
    | [] => false
    | a :: _ => if Leaf a then true else hasArtifacts a
    end.
Proof. now destruct asset. Qed.

Lemma first_child_chain_unfold (asset : Asset) :
  first_child_chain asset
  = match Children asset with
    | [] => []
    | a :: _ => a :: first_child_chain a
    end.
Proof. now destruct asset. Qed.

Section Walk.

(** The loop appends, to what it was given, the paths of the leaves below
    the children it ranges over. *)
Lemma getArtifacts_loop_returns (children : list Asset) :
  Forall (fun a => Forall has_path (leaves a) ->
                   getArtifacts a = Returns (flat_map leaf_paths (leaves a)))
         children ->
  forall artifacts,
    Forall has_path (leaves_of children) ->
    getArtifacts_loop children artifacts
    = Returns (artifacts ++ flat_map leaf_paths (leaves_of children)).
Proof.
  induction 1 as [|a rest Ha _ IH]; intros artifacts Hp; simpl.
  - now rewrite app_nil_r.
  - simpl in Hp. apply Forall_app in Hp as [Hhd Htl].
    rewrite flat_map_app. destruct (Leaf a) eqn:Hl.
    + inversion_clear Hhd as [|? ? Hpa _].
      rewrite (slice_from_1_nonempty _ Hpa). simpl.
      rewrite has_pom_len, app_nil_r. unfold leaf_paths.
      destruct (has_pom a); rewrite (IH _ Htl); f_equal;
        now rewrite <- ?app_assoc.
    + rewrite (Ha Hhd). simpl. rewrite (IH _ Htl). now rewrite app_assoc.
Qed.

Lemma getArtifacts_returns (asset : Asset) :
  Forall has_path (leaves asset) ->
  getArtifacts asset = Returns (flat_map leaf_paths (leaves asset)).
Proof.
  induction asset as [asset IH] using Asset_tree_ind. intros Hp.
  rewrite getArtifacts_unfold, leaves_unfold in *.
  now rewrite (getArtifacts_loop_returns _ IH [] Hp).
Qed.

(** The only panic of the walk is that of [Path[1:]] on an empty path. *)
Lemma slice_from_1_panic (s : string) (p : runtime_error) :
  slice_from s 1 = Panics p -> p = SliceBoundsOutOfRange 1 0.
Proof. rewrite slice_from_1. destruct s; congruence. Qed.

Lemma getArtifacts_loop_panic (children : list Asset) :
  Forall (fun a => forall p, getArtifacts a = Panics p ->
                             p = SliceBoundsOutOfRange 1 0) children ->
  forall artifacts p,
    getArtifacts_loop children artifacts = Panics p ->
    p = SliceBoundsOutOfRange 1 0.
Proof.
  induction 1 as [|a rest Ha _ IH]; intros artifacts p; simpl.
  - discriminate.
  - destruct (Leaf a).
    + destruct (slice_from (Path a) 1) as [uri|q] eqn:Hs; simpl.
      * destruct (0 <? String.length (PomUri a))%nat; apply IH.
      * intros [= <-]. exact (slice_from_1_panic _ _ Hs).
    + destruct (getArtifacts a) as [sub|q] eqn:Hg; simpl.
      * apply IH.
      * intros [= <-]. now apply Ha.
Qed.

Lemma getArtifacts_panic (asset : Asset) (p : runtime_error) :
  getArtifacts asset = Panics p -> p = SliceBoundsOutOfRange 1 0.
Proof.
  revert p. induction asset as [asset IH] using Asset_tree_ind. intros p.
  rewrite getArtifacts_unfold. now apply getArtifacts_loop_panic.
Qed.

(** A leaf child without a path makes the loop panic. *)
Lemma getArtifacts_loop_empty_path (children : list Asset) (a : Asset) :
  In a children -> Leaf a = true -> Path a = EmptyString ->
  forall artifacts,
    getArtifacts_loop children artifacts
    = Panics (SliceBoundsOutOfRange 1 0).
Proof.
  intros Hin Hl Hp.
  induction children as [|c rest IH]; intros artifacts; [easy|].
  destruct Hin as [->|Hin]; simpl.
  - now rewrite Hl, Hp.
  - destruct (Leaf c).
    + destruct (slice_from (Path c) 1) as [uri|q] eqn:Hs; simpl.
      * destruct (0 <? String.length (PomUri c))%nat; now apply IH.
      * now rewrite (slice_from_1_panic _ _ Hs).
    + destruct (getArtifacts c) as [sub|q] eqn:Hg; simpl.
      * now apply IH.
      * now rewrite (getArtifacts_panic _ _ Hg).
Qed.

(** What a leaf child contributes when the loop returns. *)
Lemma getArtifacts_loop_keeps (children : list Asset) :
  forall artifacts result x,
    getArtifacts_loop children artifacts = Returns result ->
    In x artifacts -> In x result.
Proof.
  induction children as [|c rest IH]; intros artifacts result x; simpl.
  - now intros [= <-].
  - destruct (Leaf c).
    + destruct (slice_from (Path c) 1) as [uri|q]; simpl; [|discriminate].
      destruct (0 <? String.length (PomUri c))%nat; intros Hr Hx;
        apply (IH _ _ _ Hr); rewrite ?in_app_iff; auto.
    + destruct (getArtifacts c) as [sub|q]; simpl; [|discriminate].
      intros Hr Hx. apply (IH _ _ _ Hr). rewrite in_app_iff; auto.
Qed.

Lemma getArtifacts_loop_strips (children : list Asset) (a : Asset)
  (c : ascii) (rest : string) :
  In a children -> Leaf a = true -> Path a = String c rest ->
  forall artifacts result,
    getArtifacts_loop children artifacts = Returns result ->
    In rest result.
Proof.
  intros Hin Hl Hp.
  induction children as [|b bs IH]; intros artifacts result; [easy|].
  destruct Hin as [->|Hin]; simpl.
  - rewrite Hl, Hp, slice_from_1_cons. simpl.
    destruct (0 <? String.length (PomUri a))%nat; intros Hr;
      apply (getArtifacts_loop_keeps _ _ _ _ Hr);
      rewrite ?in_app_iff; simpl; auto.
  - destruct (Leaf b).
    + destruct (slice_from (Path b) 1) as [uri|q]; simpl; [|discriminate].
      destruct (0 <? String.length (PomUri b))%nat; now apply IH.
    + destruct (getArtifacts b) as [sub|q]; simpl; [|discriminate].
      now apply IH.
Qed.

End Walk.

Section Groups.

Lemma getGroups_loop_returns (children : list Asset) :
  (forall a, In a children -> is_group a = true -> Path a <> EmptyString) ->
  forall groups,
    getGroups_loop children groups
    = Returns (groups ++ map (fun a => drop_first (Path a))
                             (filter is_group children)).
Proof.
  induction children as [|a rest IH]; intros Hp groups; simpl.
  - now rewrite app_nil_r.
  - fold (is_group a). destruct (is_group a) eqn:Hg.
    + rewrite slice_from_1_nonempty by (apply Hp; simpl; auto). simpl.
      rewrite IH by (intros b Hb; apply Hp; simpl; auto).
      now rewrite <- app_assoc.
    + apply IH. intros b Hb. apply Hp. simpl; auto.
Qed.

Lemma getGroups_loop_panic (children : list Asset) :
  forall groups p,
    getGroups_loop children groups = Panics p ->
    p = SliceBoundsOutOfRange 1 0.
Proof.
  induction children as [|a rest IH]; intros groups p; simpl.
  - discriminate.
  - destruct (Type_ a =? "G")%string; [|apply IH].
    destruct (slice_from (Path a) 1) as [g|q] eqn:Hs; simpl; [apply IH|].
    intros [= <-]. exact (slice_from_1_panic _ _ Hs).
Qed.

Lemma getGroups_loop_empty_path (children : list Asset) (a : Asset) :
  In a children -> Type_ a = "G" -> Path a = EmptyString ->
  forall groups,
    getGroups_loop children groups = Panics (SliceBoundsOutOfRange 1 0).
Proof.
  intros Hin Ht Hp.
  induction children as [|c rest IH]; intros groups; [easy|].
  destruct Hin as [->|Hin]; simpl.
  - now rewrite Ht, Hp.
  - destruct (Type_ c =? "G")%string; [|now apply IH].
    destruct (slice_from (Path c) 1) as [g|q] eqn:Hs; simpl; [now apply IH|].
    now rewrite (slice_from_1_panic _ _ Hs).
Qed.

Lemma getGroups_loop_keeps (children : list Asset) :
  forall groups result x,
    getGroups_loop children groups = Returns result ->
    In x groups -> In x result.
Proof.
  induction children as [|c rest IH]; intros groups result x; simpl.
  - now intros [= <-].
  - destruct (Type_ c =? "G")%string; [|apply IH].
    destruct (slice_from (Path c) 1) as [g|q]; simpl; [|discriminate].
    intros Hr Hx. apply (IH _ _ _ Hr). rewrite in_app_iff; auto.
Qed.

Lemma getGroups_loop_strips (children : list Asset) (a : Asset)
  (c : ascii) (rest : string) :
  In a children -> Type_ a = "G" -> Path a = String c rest ->
  forall groups result,
    getGroups_loop children groups = Returns result -> In rest result.
Proof.
  intros Hin Ht Hp.
  induction children as [|b bs IH]; intros groups result; [easy|].
  destruct Hin as [->|Hin]; simpl.
  - rewrite Ht, Hp, slice_from_1_cons. simpl. intros Hr.
    apply (getGroups_loop_keeps _ _ _ _ Hr). rewrite in_app_iff; simpl; auto.
  - destruct (Type_ b =? "G")%string; [|now apply IH].
    destruct (slice_from (Path b) 1) as [g|q]; simpl; [|discriminate].
    now apply IH.
Qed.

End Groups.

Lemma in_leaves_of (children : list Asset) (a : Asset) :
  In a (leaves_of children)
  <-> exists c, In c children
                /\ ((Leaf c = true /\ a = c)
                    \/ (Leaf c = false /\ In a (leaves c))).
Proof.
  induction children as [|c cs IH]; simpl.
  - split; [easy | now intros (c & [] & _)].
  - rewrite in_app_iff, IH. split.
    + intros [Hin|(d & Hd & H)].
      * exists c. split; [auto|]. destruct (Leaf c).
        -- destruct Hin as [<-|[]]. auto.
        -- auto.
      * exists d. auto.
    + intros (d & [<-|Hd] & H).
      * left. destruct H as [[-> ->]|[-> H]]; simpl; auto.
      * right. exists d. auto.
Qed.

(** The walk meets exactly the leaves listed by [leaves]. *)
Lemma leaves_walked (n a : Asset) :
  In a (leaves n) <-> walked n a /\ Leaf a = true.
Proof.
  split.
  - revert a. induction n as [n IH] using Asset_tree_ind. intros a.
    rewrite leaves_unfold, in_leaves_of.
    intros (c & Hc & [[Hl ->]|[Hl Hin]]).
    + split; [now apply walked_child | assumption].
    + rewrite Forall_forall in IH. destruct (IH c Hc a Hin) as [Hw Ha].
      split; [|assumption]. now apply (walked_below n c a).
  - intros [Hw Hl]. induction Hw as [n a Ha|n g a Hg Hgl _ IH];
      rewrite leaves_unfold, in_leaves_of.
    + exists a. auto.
    + exists g. auto.
Qed.

(** ** The queries of the processor *)

(** C4. [hasArtifacts] is true exactly when a leaf is met going down from
    the node through the first child at each level; the children after the
    first play no part in the answer; and a node without children has no
    artifacts. *)
Theorem hasArtifacts_first_child_probe (n : Asset) :
  (hasArtifacts n = true
   <-> exists a, In a (first_child_chain n) /\ Leaf a = true)
  /\ (forall m, hd_error (Children m) = hd_error (Children n) ->
                hasArtifacts m = hasArtifacts n)
  /\ (Children n = [] -> hasArtifacts n = false).
Proof.
  split; [|split].
  - induction n as [n IH] using Asset_tree_ind.
    rewrite hasArtifacts_unfold, first_child_chain_unfold.
    destruct (Children n) as [|c cs].
    + split; [discriminate | now intros (a & [] & _)].
    + inversion_clear IH as [|? ? IHc _].
      destruct (Leaf c) eqn:Hl.
      * split; [|reflexivity]. intros _. exists c. simpl; auto.
      * rewrite IHc. split.
        -- intros (a & Ha & Hla). exists a. simpl; auto.
        -- intros (a & [<-|Ha] & Hla); [congruence|]. now exists a.
  - intros m Hm. rewrite (hasArtifacts_unfold m), (hasArtifacts_unfold n).
    destruct (Children m), (Children n); simpl in Hm; try discriminate;
      [reflexivity | now injection Hm as ->].
  - intros Hc. now rewrite hasArtifacts_unfold, Hc.
Qed.

(** C3, as the code has it.  When every leaf met by the walk has a
    non-empty path, [getArtifacts] returns the paths of those leaves in the
    order of the walk; the walk goes through the children of the node and of
    every non-leaf node below it; a leaf stands for its path without its
    first byte, and a leaf with a [pomUri] for one more path, the first one
    with its first occurrence of [jar] replaced by [pom]; so the number of
    paths is the number of leaves plus the number of leaves with a
    [pomUri]. *)
Theorem getArtifacts_collects_leaf_paths (n : Asset) :
  Forall has_path (leaves n) ->
  getArtifacts n = Returns (flat_map leaf_paths (leaves n))
  /\ (forall a, In a (leaves n) <-> walked n a /\ Leaf a = true)
  /\ (forall a, In a (leaves n) ->
        exists c artifactURI,
          Path a = String c artifactURI
          /\ (PomUri a = EmptyString -> leaf_paths a = [artifactURI])
          /\ (PomUri a <> EmptyString ->
              exists pomURI,
                leaf_paths a = [artifactURI; pomURI]
                /\ first_replaced "jar" "pom" artifactURI pomURI))
  /\ length (flat_map leaf_paths (leaves n))
     = length (leaves n) + length (filter has_pom (leaves n)).
Proof.
  intros Hp. split; [|split; [|split]].
  - now apply getArtifacts_returns.
  - intros a. apply leaves_walked.
  - intros a Ha. rewrite Forall_forall in Hp. specialize (Hp a Ha).
    destruct (Path a) as [|c uri] eqn:Hpath; [congruence|].
    exists c, uri. split; [reflexivity|].
    unfold leaf_paths, has_pom. rewrite Hpath. simpl. split.
    + now intros ->.
    + intros Hpom. apply String.eqb_neq in Hpom. rewrite Hpom. simpl.
      eexists. split; [reflexivity|].
      now apply strings_Replace1_first.
  - clear Hp. induction (leaves n) as [|a l IH]; simpl; [reflexivity|].
    rewrite List.length_app, IH. unfold leaf_paths.
    destruct (has_pom a); simpl; lia.
Qed.

Lemma getArtifacts_collects_leaf_paths_witness :
  Forall has_path (leaves releases_node)
  /\ getArtifacts releases_node
     = Returns ["releases/lib-1.0.jar"; "releases/lib-1.0.pom"].
Proof.
  assert (H : Forall has_path (leaves releases_node))
    by (repeat constructor; discriminate).
  split; [exact H|].
  exact (proj1 (getArtifacts_collects_leaf_paths releases_node H)).
Defined.

(** C3 as stated fails: a leaf without a path makes [getArtifacts] panic
    instead of returning a path for it, and a path that does not start with
    a separator loses its first byte all the same. *)
Lemma getArtifacts_not_for_every_node :
  getArtifacts leaf_without_path = Panics (SliceBoundsOutOfRange 1 0)
  /\ getArtifacts leaf_without_separator = Returns ["ib-1.0.jar"].
Proof. split; reflexivity. Qed.

(** C9. [Path[1:]] drops the first byte of the path of a leaf child (in
    [getArtifacts]) or of a group child (in [getGroups]) whatever that byte
    is, and panics with a slice-bounds error when the path is empty.  For
    a direct child [a] of [n]: an empty path makes the query panic; a
    non-empty path [c :: rest] makes it return [rest] for that child, for
    every byte [c], as soon as no other path met is empty, and a node with
    that child alone returns exactly [[rest]]. *)
Theorem path_first_byte_dropped_or_panic (n a : Asset) :
  In a (Children n) ->
  (Leaf a = true -> Path a = EmptyString ->
   getArtifacts n = Panics (SliceBoundsOutOfRange 1 0))
  /\ (Type_ a = "G" -> Path a = EmptyString ->
      getGroups n = Panics (SliceBoundsOutOfRange 1 0))
  /\ (forall c rest result,
        Leaf a = true -> Path a = String c rest ->
        getArtifacts n = Returns result -> In rest result)
  /\ (forall c rest result,
        Type_ a = "G" -> Path a = String c rest ->
        getGroups n = Returns result -> In rest result)
  /\ (forall c rest,
        Leaf a = true -> Path a = String c rest ->
        Forall has_path (leaves n) ->
        exists result, getArtifacts n = Returns result /\ In rest result)
  /\ (forall c rest,
        Type_ a = "G" -> Path a = String c rest ->
        (forall b, In b (Children n) -> is_group b = true ->
                   Path b <> EmptyString) ->
        exists result, getGroups n = Returns result /\ In rest result)
  /\ (forall c rest,
        Children n = [a] -> Leaf a = true -> Path a = String c rest ->
        PomUri a = EmptyString ->
        getArtifacts n = Returns [rest])
  /\ (forall c rest,
        Children n = [a] -> Type_ a = "G" -> Path a = String c rest ->
        getGroups n = Returns [rest]).
Proof.
  intros Hin.
  split; [|split; [|split; [|split; [|split; [|split; [|split]]]]]].
  - intros Hl Hp. rewrite getArtifacts_unfold.
    now apply (getArtifacts_loop_empty_path _ a).
  - intros Ht Hp. now apply (getGroups_loop_empty_path _ a).
  - intros c rest result Hl Hp. rewrite getArtifacts_unfold.
    now apply (getArtifacts_loop_strips _ a c).
  - intros c rest result Ht Hp.
    now apply (getGroups_loop_strips _ a c).
  - intros c rest Hl Hp Hall.
    pose proof (getArtifacts_returns n Hall) as Hr.
    eexists. split; [exact Hr|].
    rewrite getArtifacts_unfold in Hr.
    exact (getArtifacts_loop_strips _ a c rest Hin Hl Hp _ _ Hr).
  - intros c rest Ht Hp Hall.
    pose proof (getGroups_loop_returns _ Hall []) as Hr.
    eexists. split; [exact Hr|].
    exact (getGroups_loop_strips _ a c rest Hin Ht Hp _ _ Hr).
  - intros c rest Hc Hl Hp Hpom.
    rewrite getArtifacts_unfold, Hc. simpl.
    now rewrite Hl, Hp, slice_from_1_cons, Hpom.
  - intros c rest Hc Ht Hp. unfold getGroups. rewrite Hc. simpl.
    now rewrite Ht, Hp, slice_from_1_cons.
Qed.

Lemma path_first_byte_dropped_or_panic_witness :
  (In (node "A" true "" [] "") (Children leaf_without_path)
   /\ getArtifacts leaf_without_path = Panics (SliceBoundsOutOfRange 1 0))
  /\ (In (node "G" false "" [] "") (Children group_without_path)
      /\ getGroups group_without_path = Panics (SliceBoundsOutOfRange 1 0))
  /\ (In (node "A" true "lib-1.0.jar" [] "")
         (Children leaf_without_separator)
      /\ getArtifacts leaf_without_separator = Returns ["ib-1.0.jar"])
  /\ (In (node "G" false "releases" [] "")
         (Children group_without_separator)
      /\ getGroups group_without_separator = Returns ["eleases"]).
Proof.
  assert (H1 : In (node "A" true "" [] "") (Children leaf_without_path))
    by (left; reflexivity).
  assert (H2 : In (node "G" false "" [] "") (Children group_without_path))
    by (left; reflexivity).
  assert (H3 : In (node "A" true "lib-1.0.jar" [] "")
                  (Children leaf_without_separator))
    by (left; reflexivity).
  assert (H4 : In (node "G" false "releases" [] "")
                  (Children group_without_separator))
    by (left; reflexivity).
  split; [split; [exact H1|]|split; [split; [exact H2|]
         |split; [split; [exact H3|]|split; [exact H4|]]]].
  - exact (proj1 (path_first_byte_dropped_or_panic _ _ H1) eq_refl eq_refl).
  - exact (proj1 (proj2 (path_first_byte_dropped_or_panic _ _ H2))
             eq_refl eq_refl).
  - exact (proj1 (proj2 (proj2 (proj2 (proj2 (proj2 (proj2
             (path_first_byte_dropped_or_panic _ _ H3)))))))
             "l"%char "ib-1.0.jar" eq_refl eq_refl eq_refl eq_refl).
  - exact (proj2 (proj2 (proj2 (proj2 (proj2 (proj2 (proj2
             (path_first_byte_dropped_or_panic _ _ H4)))))))
             "r"%char "eleases" eq_refl eq_refl eq_refl).
Defined.

(** ** The processor *)

Lemma for_range_emit {A : Type} (f : A -> event) (l : list A) (fr : frame) :
  for_range l (fun x => emit (f x)) fr
  = (tt, mkFrame (trace fr ++ map f l) (deferred fr)).
Proof.
  revert fr; induction l as [|x l IH]; intros fr; simpl.
  - unfold ret. rewrite app_nil_r. now destruct fr.
  - unfold bind, emit at 1. rewrite IH. simpl. now rewrite <- app_assoc.
Qed.

(** C6. For every collected artifact path the processor sends exactly one
    job to [streamCh]: source URL and target URL are the download base and
    the target base followed by the path, and the content type is
    [application/xml] for a path that ends in [.pom] and
    [application/java-archive] for every other path. *)
Theorem processor_builds_transfer_jobs (c : confInfo) (n : Asset)
  (paths : list string) :
  hasArtifacts n = true ->
  getArtifacts n = Returns paths ->
  processor_body c n start
  = (Returns tt,
     mkFrame (map (fun p => Send_streamCh (transfer_job c p)) paths) [])
  /\ forall p,
       sourceURL (transfer_job c p)
       = (SourceDownloadURL (ci_configFile c) ++ p)%string
       /\ targetURL (transfer_job c p)
          = (TargetURL (ci_configFile c) ++ p)%string
       /\ ((exists pre, p = (pre ++ ".pom")%string) ->
           contentType (transfer_job c p) = "application/xml")
       /\ (~ (exists pre, p = (pre ++ ".pom")%string) ->
           contentType (transfer_job c p) = "application/java-archive").
Proof.
  intros Hh Hg. split.
  - unfold processor_body. rewrite Hh, Hg. unfold bind.
    change (fun artifact : string => emit _)
      with (fun p => emit (Send_streamCh (transfer_job c p))).
    now rewrite (for_range_emit (fun p => Send_streamCh (transfer_job c p))).
  - intros p. repeat split; simpl; unfold content_type_of.
    + intros Hs. apply strings_HasSuffix_spec in Hs. now rewrite Hs.
    + intros Hs. destruct (strings_HasSuffix p ".pom") eqn:E; [|reflexivity].
      apply strings_HasSuffix_spec in E. contradiction.
Qed.

Lemma processor_builds_transfer_jobs_witness :
  hasArtifacts releases_node = true
  /\ getArtifacts releases_node
     = Returns ["releases/lib-1.0.jar"; "releases/lib-1.0.pom"]
  /\ processor_body sample_conf releases_node start
     = (Returns tt,
        mkFrame
          [Send_streamCh
             (mkAssetToStream "http://src/get/releases/lib-1.0.jar"
                              "http://dst/repo/releases/lib-1.0.jar"
                              "application/java-archive");
           Send_streamCh
             (mkAssetToStream "http://src/get/releases/lib-1.0.pom"
                              "http://dst/repo/releases/lib-1.0.pom"
                              "application/xml")] []).
Proof.
  split; [reflexivity|]. split; [reflexivity|].
  exact (proj1 (processor_builds_transfer_jobs sample_conf releases_node
                  ["releases/lib-1.0.jar"; "releases/lib-1.0.pom"]
                  eq_refl eq_refl)).
Defined.

(** C5, as the code has it.  For a node without artifacts whose group
    children all have a non-empty path, the processor sends to [downloadCh]
    exactly one URL per direct child of type [G], in order: the listing
    base followed by the path of the child without its first byte; and for
    a node without children it sends nothing. *)
Theorem processor_fans_out_groups (c : confInfo) (n : Asset) :
  hasArtifacts n = false ->
  (forall a, In a (Children n) -> is_group a = true ->
             Path a <> EmptyString) ->
  processor_body c n start
  = (Returns tt,
     mkFrame (map (fun a => Send_downloadCh
                              (SourceURL (ci_configFile c)
                                 ++ drop_first (Path a)))
                  (filter is_group (Children n))) [])
  /\ (Children n = [] -> processor_body c n start = (Returns tt, start)).
Proof.
  intros Hh Hp.
  assert (E : processor_body c n start
              = (Returns tt,
                 mkFrame (map (fun a => Send_downloadCh
                                          (SourceURL (ci_configFile c)
                                             ++ drop_first (Path a)))
                              (filter is_group (Children n))) [])).
  { unfold processor_body, getGroups. rewrite Hh.
    rewrite (getGroups_loop_returns _ Hp). unfold bind.
    rewrite (for_range_emit
               (fun g => Send_downloadCh (SourceURL (ci_configFile c) ++ g))).
    simpl. now rewrite map_map. }
  split; [exact E|]. intros Hc. rewrite E, Hc. reflexivity.
Qed.

Lemma processor_fans_out_groups_witness :
  hasArtifacts root_node = false
  /\ (forall a, In a (Children root_node) -> is_group a = true ->
                Path a <> EmptyString)
  /\ processor_body sample_conf root_node start
     = (Returns tt, mkFrame [Send_downloadCh "http://src/tree/releases"] []).
Proof.
  assert (H : forall a, In a (Children root_node) -> is_group a = true ->
                        Path a <> EmptyString).
  { intros a [<-|[]] _. discriminate. }
  split; [reflexivity|]. split; [exact H|].
  exact (proj1 (processor_fans_out_groups sample_conf root_node eq_refl H)).
Defined.

(** C5 as stated fails: the URL sent for the group [/releases] is the
    listing base followed by [releases], which is not the base followed by
    the path of the group; and a group child without a path makes the
    processor panic before it sends anything. *)
Lemma processor_group_path_loses_first_byte :
  processor_body sample_conf root_node start
  = (Returns tt, mkFrame [Send_downloadCh "http://src/tree/releases"] [])
  /\ "http://src/tree/releases"
     <> (SourceURL (ci_configFile sample_conf) ++ "/releases")%string
  /\ processor_body sample_conf group_without_path start
     = (Panics (SliceBoundsOutOfRange 1 0), start).
Proof. repeat split; try reflexivity. discriminate. Qed.

(** ** The downloader *)

Section Download.

Variable env : Env.
Variable c : confInfo.

(** [httpDownload] once the server has answered. *)
Lemma httpDownload_response (url : string) (resp : Response) (fr : frame) :
  url_Parse env url = None ->
  RoundTrip env (source_request c url) = inr resp ->
  httpDownload env c url fr
  = (if (StatusCode resp =? http_StatusOK)%Z
     then (fst (read_all (RespBody resp)), None)
     else (EmptyString,
           Some (ErrStatus url (StatusCode resp)
                           (fst (read_all (RespBody resp))))),
     mkFrame (trace fr ++ [Do (source_request c url);
                           ReadAll (RespBody resp);
                           Close (RespBody resp)])
             (deferred fr)).
Proof.
  intros Hu Hr. unfold httpDownload, call, http_NewRequest. rewrite Hu.
  cbn -[Z.eqb read_all].
  change (Header_Add _ "Accept" "application/json")
    with (source_request c url).
  rewrite Hr.
  destruct (StatusCode resp =? http_StatusOK)%Z;
    cbn -[read_all]; now rewrite <- !app_assoc.
Qed.

(** X1. A status other than 200 gives one error with the URL, the status
    and what was read of the body, and nothing is sent downstream. *)
Lemma downloader_non_200 (url : string) (resp : Response) :
  url_Parse env url = None ->
  RoundTrip env (source_request c url) = inr resp ->
  StatusCode resp <> http_StatusOK ->
  events (downloader_body env c url)
  = [Stdout ("downloader url " ++ url); Do (source_request c url);
     ReadAll (RespBody resp); Close (RespBody resp);
     Send_errCh (ErrStatus url (StatusCode resp)
                           (fst (read_all (RespBody resp))))].
Proof.
  intros Hu Hr Hs. apply Z.eqb_neq in Hs.
  unfold events, downloader_body, bind. cbn -[httpDownload].
  rewrite (httpDownload_response _ _ _ Hu Hr), Hs. reflexivity.
Qed.

(** X2. A 200 answer whose body is read to its end is sent on whole, and
    nothing is sent to [errCh]. *)
Lemma downloader_200_complete (url : string) (resp : Response) :
  url_Parse env url = None ->
  RoundTrip env (source_request c url) = inr resp ->
  StatusCode resp = http_StatusOK ->
  failAt (RespBody resp) = None ->
  events (downloader_body env c url)
  = [Stdout ("downloader url " ++ url); Do (source_request c url);
     ReadAll (RespBody resp); Close (RespBody resp);
     Send_unmarshalCh (content (RespBody resp))].
Proof.
  intros Hu Hr Hs Hf.
  unfold events, downloader_body, bind. cbn -[httpDownload].
  rewrite (httpDownload_response _ _ _ Hu Hr), Hs.
  unfold read_all. rewrite Hf. reflexivity.
Qed.

(** C10. When reading the body of a 200 listing answer fails after [k]
    bytes, [httpDownload] returns those bytes with a nil error; the
    downloader sends them to [unmarshalCh] and sends nothing to [errCh]. *)
Theorem httpDownload_discards_read_error (url : string) (resp : Response)
  (k : nat) :
  url_Parse env url = None ->
  RoundTrip env (source_request c url) = inr resp ->
  StatusCode resp = http_StatusOK ->
  failAt (RespBody resp) = Some k ->
  read_all (RespBody resp)
  = (substring 0 k (content (RespBody resp)),
     Some (ErrUnexpectedEOF (conn (RespBody resp))))
  /\ fst (httpDownload env c url start)
     = (substring 0 k (content (RespBody resp)), None)
  /\ events (downloader_body env c url)
     = [Stdout ("downloader url " ++ url); Do (source_request c url);
        ReadAll (RespBody resp); Close (RespBody resp);
        Send_unmarshalCh (substring 0 k (content (RespBody resp)))]
  /\ filter is_Send_errCh (events (downloader_body env c url)) = [].
Proof.
  intros Hu Hr Hs Hf.
  assert (Hread : read_all (RespBody resp)
                  = (substring 0 k (content (RespBody resp)),
                     Some (ErrUnexpectedEOF (conn (RespBody resp)))))
    by (unfold read_all; now rewrite Hf).
  assert (Hev : events (downloader_body env c url)
     = [Stdout ("downloader url " ++ url); Do (source_request c url);
        ReadAll (RespBody resp); Close (RespBody resp);
        Send_unmarshalCh (substring 0 k (content (RespBody resp)))]).
  { unfold events, downloader_body, bind. cbn -[httpDownload].
    rewrite (httpDownload_response _ _ _ Hu Hr), Hs, Hread. reflexivity. }
  repeat split.
  - exact Hread.
  - rewrite (httpDownload_response _ _ _ Hu Hr), Hs, Hread. reflexivity.
  - exact Hev.
  - rewrite Hev. reflexivity.
Qed.

End Download.

Lemma httpDownload_discards_read_error_witness :
  url_Parse (http_env 200 truncated_listing) "http://src/tree/releases" = None
  /\ events (downloader_body (http_env 200 truncated_listing) sample_conf
                             "http://src/tree/releases")
     = [Stdout "downloader url http://src/tree/releases";
        Do (source_request sample_conf "http://src/tree/releases");
        ReadAll truncated_listing; Close truncated_listing;
        Send_unmarshalCh "{ data: "].
Proof.
  split; [reflexivity|].
  exact (proj1 (proj2 (proj2
    (httpDownload_discards_read_error (http_env 200 truncated_listing)
       sample_conf "http://src/tree/releases"
       (mkResponse 200 truncated_listing) 8
       eq_refl eq_refl eq_refl eq_refl)))).
Defined.

(** C7 at a listing whose body breaks off after 8 of its 35 bytes: the
    answer has status 200, and the downloader sends the 8 bytes downstream
    as the body and reports no error. *)
Theorem downloader_forwards_truncated_listing :
  StatusCode (mkResponse 200 truncated_listing) = http_StatusOK
  /\ String.length (content truncated_listing) = 35
  /\ events (downloader_body (http_env 200 truncated_listing) sample_conf
                             "http://src/tree/releases")
     = [Stdout "downloader url http://src/tree/releases";
        Do (source_request sample_conf "http://src/tree/releases");
        ReadAll truncated_listing; Close truncated_listing;
        Send_unmarshalCh "{ data: "].
Proof. split; [|split]; reflexivity. Qed.

(** ** The streamer *)

Section Transfer.

Variable env : Env.
Variable c : confInfo.

(** A call leaves the deferred calls of its caller as they were. *)
Lemma call_deferred {A : Type} (body : Go A) (fr : frame) :
  deferred (snd (call body fr)) = deferred fr.
Proof. unfold call. now destruct (body _). Qed.

(** [httpUpload] once the target has answered: the body of the answer is
    read only when the status is not 201, and closed on return. *)
Lemma httpUpload_response (url : string) (body : Body) (ctype : string)
  (put : Response) (fr : frame) :
  url_Parse env url = None ->
  RoundTrip env (target_request c url body ctype) = inr put ->
  httpUpload env c url body ctype fr
  = (if (StatusCode put =? http_StatusCreated)%Z then None
     else Some (ErrStatus url (StatusCode put)
                          (fst (read_all (RespBody put)))),
     mkFrame (trace fr
                ++ [Stdout ("streaming TO: " ++ url);
                    Do (target_request c url body ctype)]
                ++ (if (StatusCode put =? http_StatusCreated)%Z then []
                    else [ReadAll (RespBody put)])
                ++ [Close (RespBody put)])
             (deferred fr)).
Proof.
  intros Hu Hr. unfold httpUpload, call, http_NewRequest. rewrite Hu.
  cbn -[Z.eqb read_all].
  change (Header_Set _ "Content-Type" ctype)
    with (target_request c url body ctype).
  rewrite Hr.
  destruct (StatusCode put =? http_StatusCreated)%Z;
    cbn -[read_all]; now rewrite <- !app_assoc.
Qed.

Lemma httpUpload_deferred (url : string) (body : Body) (ctype : string)
  (fr : frame) :
  deferred (snd (httpUpload env c url body ctype fr)) = deferred fr.
Proof. unfold httpUpload. apply call_deferred. Qed.

(** [streamer] once the source has answered: whatever the status of the
    answer, its body goes to [httpUpload], and its [Close] is left on the
    deferred calls of the loop. *)
Lemma streamer_body_response (job : AssetToStream) (resp : Response)
  (fr : frame) :
  url_Parse env (sourceURL job) = None ->
  RoundTrip env (source_request c (sourceURL job)) = inr resp ->
  streamer_body env c job fr
  = match httpUpload env c (targetURL job) (RespBody resp)
                     (contentType job)
                     (mkFrame (trace fr
                                 ++ [Do (source_request c (sourceURL job))])
                              (Close (RespBody resp) :: deferred fr))
    with
    | (Some err, fr') => emit (Send_errCh err) fr'
    | (None, fr') => (tt, fr')
    end.
Proof.
  intros Hu Hr. unfold streamer_body, http_NewRequest. rewrite Hu.
  unfold bind, client_Do. cbn -[httpUpload].
  change (Header_Add _ "Accept" "application/json")
    with (source_request c (sourceURL job)).
  rewrite Hr. cbn -[httpUpload].
  destruct (httpUpload _ _ _ _ _ _) as [[err|] fr']; reflexivity.
Qed.

(** One turn of the loop adds at most the [Close] of the source body to
    the deferred calls, and takes none away. *)
Lemma streamer_body_deferred (job : AssetToStream) (fr : frame) :
  exists d, deferred (snd (streamer_body env c job fr)) = d ++ deferred fr.
Proof.
  unfold streamer_body.
  destruct (http_NewRequest env "GET" (sourceURL job) None) as [e|req].
  - now exists [].
  - unfold bind, client_Do. cbn -[httpUpload].
    destruct (RoundTrip env _) as [e|resp]; [now exists []|].
    cbn -[httpUpload].
    match goal with
    | |- context [httpUpload env c ?u ?b ?t ?f] =>
        pose proof (httpUpload_deferred u b t f) as Hd;
        destruct (httpUpload env c u b t f) as [[err|] fr']
    end; simpl in *; rewrite Hd; now exists [Close (RespBody resp)].
Qed.

Lemma streamer_body_pending (job : AssetToStream) (resp : Response)
  (fr : frame) :
  url_Parse env (sourceURL job) = None ->
  RoundTrip env (source_request c (sourceURL job)) = inr resp ->
  deferred (snd (streamer_body env c job fr))
  = Close (RespBody resp) :: deferred fr.
Proof.
  intros Hu Hr. rewrite (streamer_body_response _ _ _ Hu Hr).
  match goal with
  | |- context [httpUpload env c ?u ?b ?t ?f] =>
      pose proof (httpUpload_deferred u b t f) as Hd;
      destruct (httpUpload env c u b t f) as [[err|] fr']
  end; simpl in *; exact Hd.
Qed.

(** The deferred calls of the loop are never run: whatever the jobs, the
    ones that were pending stay pending. *)
Lemma streamer_pending_grows (jobs : list AssetToStream) (fr : frame) :
  exists more,
    deferred (snd (streamer env c jobs fr)) = more ++ deferred fr.
Proof.
  revert fr; induction jobs as [|job jobs IH]; intros fr.
  - now exists [].
  - unfold streamer in *. cbn [for_range]. unfold bind at 1.
    destruct (streamer_body_deferred job fr) as [d Hd].
    destruct (streamer_body env c job fr) as [[] fr1].
    destruct (IH fr1) as [more Hm]. rewrite Hm. simpl in Hd. rewrite Hd.
    exists (more ++ d). now rewrite app_assoc.
Qed.

(** X20. When the PUT request cannot be built, the body of the source
    answer is neither read nor closed: its [Close] is only deferred. *)
Lemma streamer_body_target_url_error (job : AssetToStream) (resp : Response)
  (err : error) :
  url_Parse env (sourceURL job) = None ->
  RoundTrip env (source_request c (sourceURL job)) = inr resp ->
  url_Parse env (targetURL job) = Some err ->
  events (streamer_body env c job)
  = [Do (source_request c (sourceURL job));
     Stdout ("streaming TO: " ++ targetURL job);
     Send_errCh err]
  /\ pending (streamer_body env c job) = [Close (RespBody resp)].
Proof.
  intros Hs Hget Ht. unfold events, pending.
  rewrite (streamer_body_response _ _ _ Hs Hget).
  unfold httpUpload, call, http_NewRequest. rewrite Ht.
  split; reflexivity.
Qed.

End Transfer.

(** C1 on the code: the streamer does not look at the status of the
    source answer.  When the GET is answered with a status other than 200
    and the PUT with 201, the job runs as a successful one: the target is
    sent the PUT, with the body of the failed answer as its body, and
    nothing is sent to [errCh]. *)
Theorem streamer_ignores_source_status (env : Env) (c : confInfo)
  (job : AssetToStream) (resp put : Response) :
  url_Parse env (sourceURL job) = None ->
  url_Parse env (targetURL job) = None ->
  RoundTrip env (source_request c (sourceURL job)) = inr resp ->
  StatusCode resp <> http_StatusOK ->
  RoundTrip env (target_request c (targetURL job) (RespBody resp)
                                (contentType job)) = inr put ->
  StatusCode put = http_StatusCreated ->
  events (streamer_body env c job)
  = [Do (source_request c (sourceURL job));
     Stdout ("streaming TO: " ++ targetURL job);
     Do (target_request c (targetURL job) (RespBody resp) (contentType job));
     Close (RespBody put)]
  /\ filter is_Do_PUT (events (streamer_body env c job))
     = [Do (target_request c (targetURL job) (RespBody resp)
                           (contentType job))]
  /\ filter is_Send_errCh (events (streamer_body env c job)) = [].
Proof.
  intros Hs Ht Hget _ Hput H201.
  assert (E : events (streamer_body env c job)
    = [Do (source_request c (sourceURL job));
       Stdout ("streaming TO: " ++ targetURL job);
       Do (target_request c (targetURL job) (RespBody resp)
                          (contentType job));
       Close (RespBody put)]).
  { unfold events. rewrite (streamer_body_response _ _ _ _ _ Hs Hget).
    rewrite (httpUpload_response _ _ _ _ _ _ _ Ht Hput), H201.
    reflexivity. }
  rewrite E. split; [reflexivity|]. split; reflexivity.
Qed.

Lemma streamer_ignores_source_status_witness :
  StatusCode (mkResponse 404 not_found_body) <> http_StatusOK
  /\ events (streamer_body (http_env 404 not_found_body) sample_conf
                           sample_job)
     = [Do (source_request sample_conf
                           "http://src/get/releases/lib-1.0.jar");
        Stdout "streaming TO: http://dst/repo/releases/lib-1.0.jar";
        Do (target_request sample_conf
                           "http://dst/repo/releases/lib-1.0.jar"
                           not_found_body "application/java-archive");
        Close (mkBody 9 "" None)].
Proof.
  assert (H : StatusCode (mkResponse 404 not_found_body) <> http_StatusOK)
    by discriminate.
  split; [exact H|].
  exact (proj1 (streamer_ignores_source_status
                  (http_env 404 not_found_body) sample_conf sample_job
                  (mkResponse 404 not_found_body)
                  (mkResponse 201 (mkBody 9 "" None))
                  eq_refl eq_refl eq_refl H eq_refl eq_refl)).
Defined.

(** C8 on the code, at two inputs where nothing but the program handles
    the body in question.  When the PUT request cannot be built (the
    target URL does not parse), no PUT is sent, so the body of the source
    answer reaches no transport: the program neither reads nor closes it,
    and after two such jobs the two [Close] calls are still deferred in
    the loop, which never returns.  When the PUT is answered with 201 and
    a non-empty body, [httpUpload] closes that body without reading
    it. *)
Theorem streamer_leaves_bodies_unread :
  events (streamer no_target_url_env sample_conf [sample_job; next_job])
  = [Do (source_request sample_conf "http://src/get/releases/lib-1.0.jar");
     Stdout "streaming TO: http://dst/repo/releases/lib-1.0.jar";
     Send_errCh (ErrURL "" "http://dst/repo/releases/lib-1.0.jar");
     Do (source_request sample_conf "http://src/get/releases/lib-1.0.pom");
     Stdout "streaming TO: http://dst/repo/releases/lib-1.0.pom";
     Send_errCh (ErrURL "" "http://dst/repo/releases/lib-1.0.pom")]
  /\ pending (streamer no_target_url_env sample_conf
                       [sample_job; next_job])
     = [Close jar_body; Close jar_body]
  /\ String.length (content created_body) = 11
  /\ events (streamer (transfer_env 200 jar_body 201 created_body)
                      sample_conf [sample_job])
     = [Do (source_request sample_conf
                           "http://src/get/releases/lib-1.0.jar");
        Stdout "streaming TO: http://dst/repo/releases/lib-1.0.jar";
        Do (target_request sample_conf
                           "http://dst/repo/releases/lib-1.0.jar"
                           jar_body "application/java-archive");
        Close created_body].
Proof. split; [|split; [|split]]; reflexivity. Qed.

(** ** Startup *)

(** In every failing path of [processConfigAndAuthFiles] the variable [ci]
    is left as it was. *)
Lemma processConfigAndAuthFiles_error_keeps_ci (env : Env) (fl : flags)
  (g : globals) (err : error) :
  snd (processConfigAndAuthFiles env fl g) = Some err ->
  ci (fst (processConfigAndAuthFiles env fl g)) = ci g.
Proof.
  unfold processConfigAndAuthFiles.
  destruct (readFile env (nexusMigratorConfigFile fl)) as [e|data];
    [reflexivity|].
  cbn [cf af ci].
  destruct (json_Unmarshal_configFile env data zero_configFile)
    as [cf' [e|]]; [reflexivity|].
  destruct (readFile env (nexusMigratorAuthFile fl)) as [e|data'];
    [reflexivity|].
  cbn [cf af ci].
  destruct (json_Unmarshal_authFile env data' zero_authFile)
    as [af' [e|]]; [reflexivity | discriminate].
Qed.

(** A file that cannot be read makes [processConfigAndAuthFiles] return
    an error. *)
Lemma processConfigAndAuthFiles_missing_file (env : Env) (fl : flags)
  (g : globals) (err : error) :
  ioutil_ReadFile env (nexusMigratorConfigFile fl) = inl err ->
  snd (processConfigAndAuthFiles env fl g) = Some err.
Proof.
  intros H. unfold processConfigAndAuthFiles, readFile. now rewrite H.
Qed.

Lemma spawn_loop_none (fuel : nat) : spawn_loop fuel 0 = [].
Proof. now destruct fuel. Qed.

(** The fuel [main] gives the spawning loop lets it run to its end: one
    goroutine of each stage is started per worker. *)
Lemma spawn_loop_length (fuel : nat) (workers : Z) :
  Z.to_nat workers < fuel ->
  length (spawn_loop fuel workers) = 4 * Z.to_nat workers.
Proof.
  revert workers; induction fuel as [|fuel IH]; intros workers Hf; [lia|].
  cbn [spawn_loop]. destruct (workers <? 1)%Z eqn:Hw.
  - apply Z.ltb_lt in Hw. simpl. lia.
  - apply Z.ltb_ge in Hw. rewrite List.length_app, IH by lia. simpl. lia.
Qed.

(** C2 on the code: when [processConfigAndAuthFiles] returns an error,
    [main] does not stop; it goes on with the zero-valued [ci], starts no
    goroutine, seeds [downloadCh] with the empty URL and enters its
    error-printing loop. *)
Theorem main_goes_on_after_config_error (env : Env) (fl : flags)
  (err : error) :
  snd (processConfigAndAuthFiles env fl zero_globals) = Some err ->
  main env fl = Serving [] [EmptyString]
  /\ main env fl <> Fatal err.
Proof.
  intros H. unfold main.
  pose proof (processConfigAndAuthFiles_error_keeps_ci _ _ _ _ H) as Hci.
  destruct (processConfigAndAuthFiles env fl zero_globals) as [g e].
  simpl in Hci. rewrite Hci. simpl. split; [reflexivity | discriminate].
Qed.

Lemma main_goes_on_after_config_error_witness :
  snd (processConfigAndAuthFiles host_without_auth_file default_flags
                                 zero_globals)
  = Some (ErrReadFile "./migrator-auth.json")
  /\ main host_without_auth_file default_flags = Serving [] [EmptyString].
Proof.
  split; [reflexivity|].
  exact (proj1 (main_goes_on_after_config_error host_without_auth_file
                  default_flags (ErrReadFile "./migrator-auth.json")
                  eq_refl)).
Defined.

(** * Further facts about the code *)

(** ** Actions only add to the frame they run in *)

Section Appends.

Lemma appends_ret {A : Type} (a : A) : appends (ret a) a [] [].
Proof. intros [t d]. unfold ret. simpl. now rewrite app_nil_r. Qed.

Lemma appends_emit (e : event) : appends (emit e) tt [e] [].
Proof. intros fr. reflexivity. Qed.

Lemma appends_defer (e : event) : appends (defer e) tt [] [e].
Proof. intros fr. unfold defer. simpl. now rewrite app_nil_r. Qed.

Lemma appends_bind {A B : Type} (m : Go A) (k : A -> Go B)
  (a : A) (b : B) (t d t' d' : list event) :
  appends m a t d -> appends (k a) b t' d' ->
  appends (bind m k) b (t ++ t') (d' ++ d).
Proof.
  intros Hm Hk fr. unfold bind. rewrite Hm, Hk. simpl.
  now rewrite !app_assoc.
Qed.

Lemma appends_call {A : Type} (body : Go A) (a : A) (t d : list event) :
  appends body a t d -> appends (call body) a (t ++ d) [].
Proof.
  intros Hb fr. unfold call. rewrite Hb. simpl.
  now rewrite app_nil_r, app_assoc.
Qed.

Lemma appends_events {A : Type} (m : Go A) (a : A) (t d : list event) :
  appends m a t d ->
  fst (m start) = a /\ events m = t /\ pending m = d.
Proof.
  intros H. unfold events, pending. rewrite H. simpl.
  now rewrite app_nil_r.
Qed.

Lemma writes_ret {A : Type} (a : A) : writes (ret a).
Proof. do 3 eexists. apply appends_ret. Qed.

Lemma writes_emit (e : event) : writes (emit e).
Proof. do 3 eexists. apply appends_emit. Qed.

Lemma writes_defer (e : event) : writes (defer e).
Proof. do 3 eexists. apply appends_defer. Qed.

Lemma writes_bind {A B : Type} (m : Go A) (k : A -> Go B) :
  writes m -> (forall a, writes (k a)) -> writes (bind m k).
Proof.
  intros (a & t & d & Hm) Hk. destruct (Hk a) as (b & t' & d' & Hka).
  do 3 eexists. exact (appends_bind _ _ _ _ _ _ _ _ Hm Hka).
Qed.

Lemma writes_call {A : Type} (body : Go A) : writes body -> writes (call body).
Proof.
  intros (a & t & d & Hb). do 3 eexists. exact (appends_call _ _ _ _ Hb).
Qed.

End Appends.

Ltac writes_step :=
  first [ apply writes_call
        | apply writes_bind; [|intros ?]
        | apply writes_ret
        | apply writes_emit
        | apply writes_defer
        | match goal with
          | |- writes (match ?x with _ => _ end) => destruct x
          | |- writes (if ?b then _ else _) => destruct b
          | |- writes (let _ := _ in _) => cbv zeta
          end ].

Section WorkersWrite.

Variable env : Env.
Variable c : confInfo.

Lemma httpDownload_writes (url : string) : writes (httpDownload env c url).
Proof. unfold httpDownload, client_Do, ioutil_ReadAll. repeat writes_step. Qed.

Lemma httpUpload_writes (url : string) (body : Body) (ctype : string) :
  writes (httpUpload env c url body ctype).
Proof. unfold httpUpload, client_Do, ioutil_ReadAll. repeat writes_step. Qed.

Lemma downloader_body_writes (url : string) :
  writes (downloader_body env c url).
Proof.
  unfold downloader_body. apply writes_bind; [apply writes_emit|intros _].
  apply writes_bind; [apply httpDownload_writes|intros r].
  repeat writes_step.
Qed.

Lemma streamer_body_writes (job : AssetToStream) :
  writes (streamer_body env c job).
Proof.
  unfold streamer_body, client_Do.
  destruct (http_NewRequest env "GET" (sourceURL job) None);
    [apply writes_emit|].
  cbv zeta. apply writes_bind; [repeat writes_step|intros resp].
  destruct resp; [apply writes_emit|].
  apply writes_bind; [apply writes_defer|intros _].
  apply writes_bind; [apply httpUpload_writes|intros err].
  repeat writes_step.
Qed.

End WorkersWrite.

(** A loop over the messages received runs its body on each of them in
    turn, each in the frame the one before has left. *)
Lemma for_range_appends {A : Type} (body : A -> Go unit) (l : list A) :
  (forall x, writes (body x)) ->
  appends (for_range l body) tt
          (flat_map (fun x => events (body x)) l)
          (flat_map (fun x => pending (body x)) (rev l)).
Proof.
  intros Hb. induction l as [|x l IH].
  - apply appends_ret.
  - cbn [for_range flat_map rev]. rewrite flat_map_app. cbn [flat_map].
    rewrite app_nil_r.
    destruct (Hb x) as ([] & t & d & Hx).
    destruct (appends_events _ _ _ _ Hx) as (_ & -> & ->).
    exact (appends_bind _ _ _ _ _ _ _ _ Hx IH).
Qed.

Lemma filter_flat_map {A B : Type} (f : B -> bool) (g : A -> list B)
  (l : list A) :
  filter f (flat_map g l) = flat_map (fun x => filter f (g x)) l.
Proof.
  induction l as [|x l IH]; simpl; [reflexivity|].
  now rewrite filter_app, IH.
Qed.

(** ** More on the downloader *)

Section DownloadMore.

Variable env : Env.
Variable c : confInfo.

(** All that one turn of the downloader does, by what the environment
    answers. *)
Lemma downloader_body_events (url : string) :
  events (downloader_body env c url)
  = Stdout ("downloader url " ++ url)
    :: match url_Parse env url with
       | Some err => [Send_errCh err]
       | None =>
           Do (source_request c url)
           :: match RoundTrip env (source_request c url) with
              | inl err => [Send_errCh err]
              | inr resp =>
                  [ReadAll (RespBody resp); Close (RespBody resp);
                   if (StatusCode resp =? http_StatusOK)%Z
                   then Send_unmarshalCh (fst (read_all (RespBody resp)))
                   else Send_errCh
                          (ErrStatus url (StatusCode resp)
                                     (fst (read_all (RespBody resp))))]
              end
       end.
Proof.
  destruct (url_Parse env url) as [e|] eqn:Hu.
  - unfold events, downloader_body, bind, httpDownload, call,
      http_NewRequest. rewrite Hu. reflexivity.
  - destruct (RoundTrip env (source_request c url)) as [e|resp] eqn:Hr.
    + unfold events, downloader_body, bind, httpDownload, call,
        http_NewRequest. rewrite Hu. cbn -[Z.eqb read_all].
      change (Header_Add _ "Accept" "application/json")
        with (source_request c url).
      rewrite Hr. reflexivity.
    + unfold events, downloader_body, bind. cbn -[httpDownload].
      rewrite (httpDownload_response _ _ _ _ _ Hu Hr).
      now destruct (StatusCode resp =? http_StatusOK)%Z.
Qed.

Lemma downloader_body_pending (url : string) :
  pending (downloader_body env c url) = [].
Proof.
  assert (H : exists a t, appends (httpDownload env c url) a t []).
  { unfold httpDownload.
    match goal with
    | |- exists a t, appends (call ?body) a t [] =>
        assert (Hb : writes body)
          by (unfold client_Do, ioutil_ReadAll; repeat writes_step);
        destruct Hb as (a & t & d & Hb)
    end.
    do 2 eexists. exact (appends_call _ _ _ _ Hb). }
  destruct H as (a & t & H).
  unfold pending, downloader_body, bind, emit at 1. rewrite H.
  now destruct (snd a).
Qed.

(** X3. When the request for a listing cannot be built the source is not
    contacted, and when the round trip fails no body is read or closed; in
    both cases the error goes to [errCh] and nothing goes downstream. *)
Theorem downloader_request_failure (url : string) (err : error) :
  (url_Parse env url = Some err ->
   events (downloader_body env c url)
   = [Stdout ("downloader url " ++ url); Send_errCh err])
  /\ (url_Parse env url = None ->
      RoundTrip env (source_request c url) = inl err ->
      events (downloader_body env c url)
      = [Stdout ("downloader url " ++ url); Do (source_request c url);
         Send_errCh err]).
Proof.
  split.
  - intros Hu. now rewrite downloader_body_events, Hu.
  - intros Hu Hr. now rewrite downloader_body_events, Hu, Hr.
Qed.

(** X4. Whatever the environment answers, the downloader sends exactly one
    message for a URL it consumes: the body to [unmarshalCh] or an error
    to [errCh], never both and never none. *)
Theorem downloader_one_message_per_url (url : string) :
  (exists data,
     filter is_send (events (downloader_body env c url))
     = [Send_unmarshalCh data])
  \/ (exists err,
        filter is_send (events (downloader_body env c url))
        = [Send_errCh err]).
Proof.
  rewrite downloader_body_events.
  destruct (url_Parse env url) as [e|]; [right; now exists e|].
  destruct (RoundTrip env (source_request c url)) as [e|resp];
    [right; now exists e|].
  destruct (StatusCode resp =? http_StatusOK)%Z;
    [left | right]; eexists; reflexivity.
Qed.

(** X5. The downloader handles the URLs it receives one after the other
    and each as if it were the only one: what it does for a list of URLs
    is what it does for each of them, in order, whatever the outcome of
    the earlier ones; and its frame is left with no deferred call. *)
Theorem downloader_handles_each_url (urls : list string) :
  events (downloader env c urls)
  = flat_map (fun url => events (downloader_body env c url)) urls
  /\ pending (downloader env c urls) = []
  /\ length (filter is_send (events (downloader env c urls)))
     = length urls.
Proof.
  pose proof (for_range_appends (downloader_body env c) urls
                (downloader_body_writes env c)) as H.
  destruct (appends_events _ _ _ _ H) as (_ & He & Hp).
  unfold downloader. rewrite He, Hp. split; [reflexivity|]. split.
  - clear. induction (rev urls) as [|u l IH]; simpl; [reflexivity|].
    rewrite downloader_body_pending. exact IH.
  - rewrite filter_flat_map. clear.
    induction urls as [|u l IH]; simpl; [reflexivity|].
    rewrite List.length_app, IH, downloader_body_events.
    destruct (url_Parse env u); [reflexivity|].
    destruct (RoundTrip env (source_request c u)) as [e|resp];
      [reflexivity|].
    now destruct (StatusCode resp =? http_StatusOK)%Z.
Qed.

(** X6. Every body the downloader obtains is read once and closed once:
    over any list of URLs, the bodies read and the bodies closed are
    exactly those of the answers received, in order. *)
Theorem downloader_closes_every_body (urls : list string) :
  filter is_ReadAll (events (downloader env c urls))
  = flat_map (fun url => match source_response env c url with
                         | Some resp => [ReadAll (RespBody resp)]
                         | None => []
                         end) urls
  /\ filter is_Close (events (downloader env c urls))
     = flat_map (fun url => match source_response env c url with
                            | Some resp => [Close (RespBody resp)]
                            | None => []
                            end) urls.
Proof.
  pose proof (for_range_appends (downloader_body env c) urls
                (downloader_body_writes env c)) as H.
  destruct (appends_events _ _ _ _ H) as (_ & He & _).
  unfold downloader. rewrite He, !filter_flat_map.
  split; apply flat_map_ext; intros url; rewrite downloader_body_events;
    unfold source_response;
    destruct (url_Parse env url); [reflexivity| |reflexivity|];
    destruct (RoundTrip env (source_request c url)) as [e|resp];
    try reflexivity;
    now destruct (StatusCode resp =? http_StatusOK)%Z.
Qed.

End DownloadMore.

Lemma downloader_non_200_witness :
  url_Parse (http_env 404 not_found_body) "http://src/tree/releases" = None
  /\ StatusCode (mkResponse 404 not_found_body) <> http_StatusOK
  /\ events (downloader_body (http_env 404 not_found_body) sample_conf
                             "http://src/tree/releases")
     = [Stdout "downloader url http://src/tree/releases";
        Do (source_request sample_conf "http://src/tree/releases");
        ReadAll not_found_body; Close not_found_body;
        Send_errCh (ErrStatus "http://src/tree/releases" 404
                              "404 Not Found")].
Proof.
  assert (H : StatusCode (mkResponse 404 not_found_body) <> http_StatusOK)
    by discriminate.
  split; [reflexivity|]. split; [exact H|].
  exact (downloader_non_200 (http_env 404 not_found_body) sample_conf
           "http://src/tree/releases" (mkResponse 404 not_found_body)
           eq_refl eq_refl H).
Defined.

Lemma downloader_200_complete_witness :
  failAt jar_body = None
  /\ events (downloader_body (http_env 200 jar_body) sample_conf
                             "http://src/tree/releases")
     = [Stdout "downloader url http://src/tree/releases";
        Do (source_request sample_conf "http://src/tree/releases");
        ReadAll jar_body; Close jar_body;
        Send_unmarshalCh "PK-jar-bytes"].
Proof.
  split; [reflexivity|].
  exact (downloader_200_complete (http_env 200 jar_body) sample_conf
           "http://src/tree/releases" (mkResponse 200 jar_body)
           eq_refl eq_refl eq_refl eq_refl).
Defined.

(** ** More on the streamer *)

Section TransferMore.

Variable env : Env.
Variable c : confInfo.

(** X7. Once the target has answered the PUT, [httpUpload] returns nil
    exactly for status 201, closing the answer without reading it; for any
    other status it reads the answer, closes it and returns an error with
    the URL, the status and what was read; nothing stays deferred. *)
Theorem httpUpload_status (url : string) (body : Body) (ctype : string)
  (put : Response) :
  url_Parse env url = None ->
  RoundTrip env (target_request c url body ctype) = inr put ->
  (StatusCode put = http_StatusCreated ->
   fst (httpUpload env c url body ctype start) = None
   /\ events (httpUpload env c url body ctype)
      = [Stdout ("streaming TO: " ++ url);
         Do (target_request c url body ctype); Close (RespBody put)])
  /\ (StatusCode put <> http_StatusCreated ->
      fst (httpUpload env c url body ctype start)
      = Some (ErrStatus url (StatusCode put)
                        (fst (read_all (RespBody put))))
      /\ events (httpUpload env c url body ctype)
         = [Stdout ("streaming TO: " ++ url);
            Do (target_request c url body ctype);
            ReadAll (RespBody put); Close (RespBody put)])
  /\ pending (httpUpload env c url body ctype) = [].
Proof.
  intros Hu Hr. unfold events, pending.
  rewrite (httpUpload_response _ _ _ _ _ _ _ Hu Hr). split; [|split].
  - intros ->. split; reflexivity.
  - intros Hs. apply Z.eqb_neq in Hs. rewrite Hs. split; reflexivity.
  - reflexivity.
Qed.

(** X8. When the target answers the PUT with a status other than 201, the
    streamer sends exactly one error to [errCh], which carries the target
    URL, the status and the body of the answer, after that body has been
    read and closed. *)
Theorem streamer_reports_upload_failure (job : AssetToStream)
  (resp put : Response) :
  url_Parse env (sourceURL job) = None ->
  RoundTrip env (source_request c (sourceURL job)) = inr resp ->
  url_Parse env (targetURL job) = None ->
  RoundTrip env (target_request c (targetURL job) (RespBody resp)
                                (contentType job)) = inr put ->
  StatusCode put <> http_StatusCreated ->
  events (streamer_body env c job)
  = [Do (source_request c (sourceURL job));
     Stdout ("streaming TO: " ++ targetURL job);
     Do (target_request c (targetURL job) (RespBody resp) (contentType job));
     ReadAll (RespBody put); Close (RespBody put);
     Send_errCh (ErrStatus (targetURL job) (StatusCode put)
                           (fst (read_all (RespBody put))))].
Proof.
  intros Hs Hget Ht Hput Hst. apply Z.eqb_neq in Hst. unfold events.
  rewrite (streamer_body_response _ _ _ _ _ Hs Hget).
  rewrite (httpUpload_response _ _ _ _ _ _ _ Ht Hput), Hst. reflexivity.
Qed.

(** X9. When the GET of a job cannot be built or its round trip fails, the
    streamer sends that error to [errCh] and does nothing else for the
    job: no PUT is sent to the target. *)
Theorem streamer_source_failure_skips_target (job : AssetToStream)
  (err : error) :
  (url_Parse env (sourceURL job) = Some err ->
   events (streamer_body env c job) = [Send_errCh err])
  /\ (url_Parse env (sourceURL job) = None ->
      RoundTrip env (source_request c (sourceURL job)) = inl err ->
      events (streamer_body env c job)
      = [Do (source_request c (sourceURL job)); Send_errCh err]).
Proof.
  split.
  - intros Hu. unfold events, streamer_body, http_NewRequest.
    now rewrite Hu.
  - intros Hu Hr. unfold events, streamer_body, http_NewRequest.
    rewrite Hu. unfold bind, client_Do. cbn -[httpUpload].
    change (Header_Add _ "Accept" "application/json")
      with (source_request c (sourceURL job)).
    now rewrite Hr.
Qed.

(** What one turn of the streamer leaves deferred. *)
Lemma streamer_body_pending_all (job : AssetToStream) :
  pending (streamer_body env c job)
  = match source_response env c (sourceURL job) with
    | Some resp => [Close (RespBody resp)]
    | None => []
    end.
Proof.
  unfold source_response.
  destruct (url_Parse env (sourceURL job)) as [e|] eqn:Hu.
  - unfold pending, streamer_body, http_NewRequest. now rewrite Hu.
  - destruct (RoundTrip env (source_request c (sourceURL job)))
      as [e|resp] eqn:Hr.
    + unfold pending, streamer_body, http_NewRequest.
      rewrite Hu. unfold bind, client_Do. cbn -[httpUpload].
      change (Header_Add _ "Accept" "application/json")
        with (source_request c (sourceURL job)).
      now rewrite Hr.
    + unfold pending. now rewrite (streamer_body_pending _ _ _ _ _ Hu Hr).
Qed.

Lemma streamer_body_sends_get (job : AssetToStream) :
  url_Parse env (sourceURL job) = None ->
  exists rest,
    events (streamer_body env c job)
    = Do (source_request c (sourceURL job)) :: rest.
Proof.
  intros Hu.
  destruct (RoundTrip env (source_request c (sourceURL job)))
    as [e|resp] eqn:Hr.
  - eexists. unfold events, streamer_body, http_NewRequest.
    rewrite Hu. unfold bind, client_Do. cbn -[httpUpload].
    change (Header_Add _ "Accept" "application/json")
      with (source_request c (sourceURL job)).
    rewrite Hr. reflexivity.
  - unfold events. rewrite (streamer_body_response _ _ _ _ _ Hu Hr).
    destruct (httpUpload_writes env c (targetURL job) (RespBody resp)
                (contentType job)) as (a & t & d & H).
    rewrite H. destruct a as [err|]; simpl; eexists; reflexivity.
Qed.

(** X10. The streamer handles the jobs it receives one after the other,
    each as if it were the only one and whatever the outcome of the
    earlier ones: every job whose source URL parses gets its GET.  The
    [Close] of every source body obtained is still deferred when the jobs
    are done, the latest first: none of them has run. *)
Theorem streamer_handles_each_job (jobs : list AssetToStream) :
  events (streamer env c jobs)
  = flat_map (fun job => events (streamer_body env c job)) jobs
  /\ pending (streamer env c jobs)
     = flat_map (fun job =>
                   match source_response env c (sourceURL job) with
                   | Some resp => [Close (RespBody resp)]
                   | None => []
                   end) (rev jobs)
  /\ (forall job,
        In job jobs -> url_Parse env (sourceURL job) = None ->
        In (Do (source_request c (sourceURL job)))
           (events (streamer env c jobs))).
Proof.
  pose proof (for_range_appends (streamer_body env c) jobs
                (streamer_body_writes env c)) as H.
  destruct (appends_events _ _ _ _ H) as (_ & He & Hp).
  unfold streamer. rewrite He, Hp. split; [reflexivity|]. split.
  - apply flat_map_ext. intros job. apply streamer_body_pending_all.
  - intros job Hin Hu. apply in_flat_map. exists job. split; [exact Hin|].
    destruct (streamer_body_sends_get job Hu) as [rest ->]. now left.
Qed.

End TransferMore.

Lemma httpUpload_status_witness :
  url_Parse (transfer_env 200 jar_body 403 forbidden_body)
            "http://dst/repo/releases/lib-1.0.jar" = None
  /\ fst (httpUpload (transfer_env 200 jar_body 403 forbidden_body)
                     sample_conf "http://dst/repo/releases/lib-1.0.jar"
                     jar_body "application/java-archive" start)
     = Some (ErrStatus "http://dst/repo/releases/lib-1.0.jar" 403
                       "403 Forbidden").
Proof.
  split; [reflexivity|].
  refine (proj1 (proj1 (proj2
    (httpUpload_status (transfer_env 200 jar_body 403 forbidden_body)
       sample_conf "http://dst/repo/releases/lib-1.0.jar" jar_body
       "application/java-archive" (mkResponse 403 forbidden_body)
       eq_refl eq_refl)) _)).
  discriminate.
Defined.

Lemma streamer_reports_upload_failure_witness :
  StatusCode (mkResponse 403 forbidden_body) <> http_StatusCreated
  /\ events (streamer_body (transfer_env 200 jar_body 403 forbidden_body)
                           sample_conf sample_job)
     = [Do (source_request sample_conf
                           "http://src/get/releases/lib-1.0.jar");
        Stdout "streaming TO: http://dst/repo/releases/lib-1.0.jar";
        Do (target_request sample_conf
                           "http://dst/repo/releases/lib-1.0.jar"
                           jar_body "application/java-archive");
        ReadAll forbidden_body; Close forbidden_body;
        Send_errCh (ErrStatus "http://dst/repo/releases/lib-1.0.jar" 403
                              "403 Forbidden")].
Proof.
  assert (H : StatusCode (mkResponse 403 forbidden_body)
              <> http_StatusCreated) by discriminate.
  split; [exact H|].
  exact (streamer_reports_upload_failure
           (transfer_env 200 jar_body 403 forbidden_body) sample_conf
           sample_job (mkResponse 200 jar_body)
           (mkResponse 403 forbidden_body)
           eq_refl eq_refl eq_refl eq_refl H).
Defined.

Lemma streamer_body_target_url_error_witness :
  url_Parse no_target_url_env (targetURL sample_job)
  = Some (ErrURL "" "http://dst/repo/releases/lib-1.0.jar")
  /\ events (streamer_body no_target_url_env sample_conf sample_job)
     = [Do (source_request sample_conf
                           "http://src/get/releases/lib-1.0.jar");
        Stdout "streaming TO: http://dst/repo/releases/lib-1.0.jar";
        Send_errCh (ErrURL "" "http://dst/repo/releases/lib-1.0.jar")]
  /\ pending (streamer_body no_target_url_env sample_conf sample_job)
     = [Close jar_body].
Proof.
  split; [reflexivity|].
  exact (streamer_body_target_url_error no_target_url_env sample_conf
           sample_job (mkResponse 200 jar_body)
           (ErrURL "" "http://dst/repo/releases/lib-1.0.jar")
           eq_refl eq_refl eq_refl).
Defined.

(** ** More on the queries of the processor *)

Section QueriesMore.

Lemma leaves_paths_dec (l : list Asset) :
  Forall has_path l \/ exists a, In a l /\ Path a = EmptyString.
Proof.
  induction l as [|a l [IH|(b & Hb & Hp)]].
  - now left.
  - destruct (string_dec (Path a) EmptyString) as [E|E].
    + right. exists a. simpl; auto.
    + left. now constructor.
  - right. exists b. simpl; auto.
Qed.

(** A leaf without a path, at any depth of the walk, makes the loop
    panic. *)
Lemma getArtifacts_loop_deep_empty_path (children : list Asset) (a : Asset) :
  Forall (fun n => In a (leaves n) ->
                   getArtifacts n = Panics (SliceBoundsOutOfRange 1 0))
         children ->
  In a (leaves_of children) -> Path a = EmptyString ->
  forall artifacts,
    getArtifacts_loop children artifacts
    = Panics (SliceBoundsOutOfRange 1 0).
Proof.
  intros Hall Hin Hp. induction Hall as [|b bs Hb _ IH]; [easy|].
  intros artifacts. simpl in Hin. apply in_app_iff in Hin. simpl.
  destruct (Leaf b) eqn:Hl.
  - destruct Hin as [[<-|[]]|Hin].
    + now rewrite Hp.
    + destruct (slice_from (Path b) 1) as [uri|q] eqn:Hs; simpl.
      * destruct (0 <? String.length (PomUri b))%nat; now apply IH.
      * now rewrite (slice_from_1_panic _ _ Hs).
  - destruct Hin as [Hin|Hin].
    + now rewrite (Hb Hin).
    + destruct (getArtifacts b) as [sub|q] eqn:Hg; simpl.
      * now apply IH.
      * now rewrite (getArtifacts_panic _ _ Hg).
Qed.

Lemma getArtifacts_deep_empty_path (n a : Asset) :
  In a (leaves n) -> Path a = EmptyString ->
  getArtifacts n = Panics (SliceBoundsOutOfRange 1 0).
Proof.
  induction n as [n IH] using Asset_tree_ind. intros Hin Hp.
  rewrite getArtifacts_unfold. rewrite leaves_unfold in Hin.
  apply (getArtifacts_loop_deep_empty_path _ a); auto.
  eapply Forall_impl; [|exact IH]. intros m Hm Hi. now apply Hm.
Qed.

(** X11. [getArtifacts] panics, with slice bounds out of range [1:0],
    exactly when some leaf met by the walk, at whatever depth, has an
    empty path; it returns exactly when every such leaf has a path. *)
Theorem getArtifacts_panics_iff (n : Asset) :
  (getArtifacts n = Panics (SliceBoundsOutOfRange 1 0)
   <-> exists a, In a (leaves n) /\ Path a = EmptyString)
  /\ ((exists paths, getArtifacts n = Returns paths)
      <-> Forall has_path (leaves n)).
Proof.
  split; split.
  - intros Hpanic. destruct (leaves_paths_dec (leaves n)) as [Hall|Hex].
    + rewrite (getArtifacts_returns _ Hall) in Hpanic. discriminate.
    + exact Hex.
  - intros (a & Hin & Hp). now apply (getArtifacts_deep_empty_path n a).
  - intros [paths Hr]. destruct (leaves_paths_dec (leaves n)) as [Hall|Hex].
    + exact Hall.
    + destruct Hex as (a & Hin & Hp).
      rewrite (getArtifacts_deep_empty_path n a Hin Hp) in Hr. discriminate.
  - intros Hall. eexists. now apply getArtifacts_returns.
Qed.



Lemma hasArtifacts_some_leaf (n : Asset) :
  hasArtifacts n = true -> exists a, In a (leaves n).
Proof.
  induction n as [n IH] using Asset_tree_ind.
  rewrite hasArtifacts_unfold, leaves_unfold.
  destruct (Children n) as [|c cs]; [discriminate|].
  inversion_clear IH as [|? ? IHc _]. simpl.
  destruct (Leaf c).
  - intros _. exists c. simpl; auto.
  - intros Hc. destruct (IHc Hc) as [a Ha]. exists a.
    apply in_app_iff. auto.
Qed.

(** X13. When [hasArtifacts] is true the walk of [getArtifacts] meets at
    least one leaf, so [getArtifacts] returns at least one path unless it
    panics: the artifacts branch of the processor never comes out
    empty-handed. *)
Theorem hasArtifacts_finds_a_leaf (n : Asset) :
  hasArtifacts n = true ->
  leaves n <> []
  /\ (forall paths, getArtifacts n = Returns paths -> paths <> []).
Proof.
  intros Hh. destruct (hasArtifacts_some_leaf n Hh) as [a Ha].
  split.
  - intros E. now rewrite E in Ha.
  - intros paths Hr.
    destruct (leaves_paths_dec (leaves n)) as [Hall|(b & Hb & Hp)].
    + rewrite (getArtifacts_returns _ Hall) in Hr. injection Hr as <-.
      destruct (leaves n) as [|l ls]; [easy|]. simpl.
      unfold leaf_paths. destruct (has_pom l); discriminate.
    + rewrite (getArtifacts_deep_empty_path n b Hb Hp) in Hr. discriminate.
Qed.

End QueriesMore.

Lemma hasArtifacts_finds_a_leaf_witness :
  hasArtifacts releases_node = true /\ leaves releases_node <> [].
Proof.
  split; [reflexivity|].
  exact (proj1 (hasArtifacts_finds_a_leaf releases_node eq_refl)).
Defined.

(** ** More on the processor *)

Section ProcessorMore.

Variable c : confInfo.

(** X14. For one node the processor sends messages of one kind only:
    transfer jobs to [streamCh] when [hasArtifacts] is true, URLs to
    [downloadCh] when it is false, and never anything to [errCh]; when a
    query panics nothing at all has been sent. *)
Theorem processor_one_kind_of_message (n : Asset) :
  (hasArtifacts n = true ->
   Forall (fun e => is_Send_streamCh e = true)
          (events (processor_body c n)))
  /\ (hasArtifacts n = false ->
      Forall (fun e => is_Send_downloadCh e = true)
             (events (processor_body c n)))
  /\ (forall p, fst (processor_body c n start) = Panics p ->
                events (processor_body c n) = []
                /\ p = SliceBoundsOutOfRange 1 0).
Proof.
  unfold events, processor_body. split; [|split].
  - intros ->. destruct (getArtifacts n) as [paths|p]; [|constructor].
    unfold bind. rewrite for_range_emit. simpl.
    apply Forall_forall. intros e He. apply in_map_iff in He.
    now destruct He as (x & <- & _).
  - intros ->. destruct (getGroups n) as [groups|p]; [|constructor].
    unfold bind. rewrite for_range_emit. simpl.
    apply Forall_forall. intros e He. apply in_map_iff in He.
    now destruct He as (x & <- & _).
  - intros p. destruct (hasArtifacts n).
    + destruct (getArtifacts n) as [paths|q] eqn:Hg.
      * unfold bind. rewrite for_range_emit. discriminate.
      * intros [= <-]. split; [reflexivity|].
        exact (getArtifacts_panic _ _ Hg).
    + destruct (getGroups n) as [groups|q] eqn:Hg.
      * unfold bind. rewrite for_range_emit. discriminate.
      * intros [= <-]. split; [reflexivity|].
        exact (getGroups_loop_panic _ _ _ Hg).
Qed.

Lemma append_inj_length (a a' b b' : string) :
  String.length a = String.length a' ->
  (a ++ b)%string = (a' ++ b')%string -> a = a' /\ b = b'.
Proof.
  revert a'; induction a as [|x a IH]; intros [|x' a'] Hl H;
    simpl in *; try discriminate.
  - now split.
  - injection H as -> H. injection Hl as Hl.
    destruct (IH a' Hl H) as [-> ->]. now split.
Qed.

(** The descriptor path derived from [stem.jar], when [jar] occurs
    nowhere before the extension. *)
Lemma Replace1_jar_extension (stem : string) :
  (forall j, j <= String.length stem ->
             ~ occurs_at "jar" (stem ++ ".jar") j) ->
  strings_Replace1 (stem ++ ".jar") "jar" "pom" = (stem ++ ".pom")%string.
Proof.
  intros Hfirst.
  assert (Hocc : occurs_at "jar" (stem ++ ".jar") (S (String.length stem))).
  { exists (stem ++ ".")%string, EmptyString. split.
    - now rewrite app_assoc_string.
    - rewrite string_length_app. simpl. lia. }
  destruct (strings_Replace1_first (stem ++ ".jar") "jar" "pom"
              ltac:(discriminate))
    as [[_ Hnone]|(pre & post & Hs & -> & Hbefore)].
  - now destruct (Hnone _ Hocc).
  - assert (Hlen : String.length pre = S (String.length stem)).
    { destruct (Nat.lt_trichotomy (String.length pre)
                                  (S (String.length stem))) as [H|[H|H]].
      - exfalso. apply (Hfirst (String.length pre)); [lia|].
        now exists pre, post.
      - exact H.
      - now destruct (Hbefore _ H Hocc). }
    replace (stem ++ ".jar")%string with ((stem ++ ".") ++ "jar" ++ "")%string
      in Hs by now rewrite app_assoc_string.
    apply append_inj_length in Hs.
    + destruct Hs as [<- Hpost].
      apply append_inj_length in Hpost; [|reflexivity].
      destruct Hpost as [_ <-]. now rewrite app_assoc_string.
    + rewrite string_length_app, Hlen. simpl. lia.
Qed.

Lemma HasSuffix_jar_not_pom (stem : string) :
  strings_HasSuffix (stem ++ ".jar") ".pom" = false.
Proof.
  destruct (strings_HasSuffix (stem ++ ".jar") ".pom") eqn:E; [|reflexivity].
  apply strings_HasSuffix_spec in E. destruct E as [pre E].
  apply append_inj_length in E; [now destruct E|].
  apply (f_equal String.length) in E.
  rewrite !string_length_app in E. simpl in E. lia.
Qed.

(** X15. For a node whose only child is a leaf with a [pomUri] and a path
    of the form [/stem.jar] in which [jar] occurs only as the extension,
    the processor sends exactly two jobs: [stem.jar] as
    [application/java-archive] and [stem.pom] as [application/xml], both
    from the download base to the target base. *)
Theorem processor_jar_with_descriptor (n a : Asset) (ch : ascii)
  (stem : string) :
  Children n = [a] ->
  Leaf a = true ->
  Path a = String ch (stem ++ ".jar") ->
  PomUri a <> EmptyString ->
  (forall j, j <= String.length stem ->
             ~ occurs_at "jar" (stem ++ ".jar") j) ->
  processor_body c n start
  = (Returns tt,
     mkFrame
       [Send_streamCh
          (mkAssetToStream
             (SourceDownloadURL (ci_configFile c) ++ stem ++ ".jar")
             (TargetURL (ci_configFile c) ++ stem ++ ".jar")
             "application/java-archive");
        Send_streamCh
          (mkAssetToStream
             (SourceDownloadURL (ci_configFile c) ++ stem ++ ".pom")
             (TargetURL (ci_configFile c) ++ stem ++ ".pom")
             "application/xml")] []).
Proof.
  intros Hc Hl Hp Hpom Hfirst.
  assert (Hh : hasArtifacts n = true)
    by now rewrite hasArtifacts_unfold, Hc, Hl.
  assert (Hg : getArtifacts n
               = Returns [(stem ++ ".jar")%string; (stem ++ ".pom")%string]).
  { rewrite getArtifacts_unfold, Hc. simpl.
    rewrite Hl, Hp, slice_from_1_cons. simpl.
    rewrite has_pom_len. unfold has_pom.
    apply String.eqb_neq in Hpom. rewrite Hpom. simpl.
    now rewrite Replace1_jar_extension. }
  unfold processor_body. rewrite Hh, Hg. unfold bind, for_range, emit, ret.
  cbn -[strings_HasSuffix append].
  rewrite HasSuffix_jar_not_pom.
  replace (strings_HasSuffix (stem ++ ".pom") ".pom") with true
    by (symmetry; apply strings_HasSuffix_spec; now exists stem).
  reflexivity.
Qed.

End ProcessorMore.

Lemma processor_jar_with_descriptor_witness :
  (forall j, j <= String.length "releases/lib-1.0" ->
             ~ occurs_at "jar" "releases/lib-1.0.jar" j)
  /\ processor_body sample_conf releases_node start
     = (Returns tt,
        mkFrame
          [Send_streamCh
             (mkAssetToStream "http://src/get/releases/lib-1.0.jar"
                              "http://dst/repo/releases/lib-1.0.jar"
                              "application/java-archive");
           Send_streamCh
             (mkAssetToStream "http://src/get/releases/lib-1.0.pom"
                              "http://dst/repo/releases/lib-1.0.pom"
                              "application/xml")] []).
Proof.
  assert (H : forall j, j <= String.length "releases/lib-1.0" ->
                        ~ occurs_at "jar" "releases/lib-1.0.jar" j).
  { intros j Hj Ho. apply occurs_at_substring in Ho; [|discriminate].
    simpl in Hj.
    do 17 (destruct j as [|j]; [discriminate Ho|]). lia. }
  split; [exact H|].
  exact (processor_jar_with_descriptor sample_conf releases_node
           (node "A" true "/releases/lib-1.0.jar" [] "/releases/lib-1.0.pom")
           "/"%char "releases/lib-1.0"
           eq_refl eq_refl eq_refl ltac:(discriminate) H).
Defined.

(** ** More on the startup *)

Section StartupMore.

Variable env : Env.
Variable fl : flags.

(** What a successful [processConfigAndAuthFiles] has done. *)
Lemma processConfigAndAuthFiles_ok (g : globals) :
  snd (processConfigAndAuthFiles env fl g) = None ->
  exists conf cf' auth af',
    ioutil_ReadFile env (nexusMigratorConfigFile fl) = inr conf
    /\ json_Unmarshal_configFile env conf zero_configFile = (cf', None)
    /\ ioutil_ReadFile env (nexusMigratorAuthFile fl) = inr auth
    /\ json_Unmarshal_authFile env auth zero_authFile = (af', None)
    /\ fst (processConfigAndAuthFiles env fl g)
       = mkGlobals cf' af' (mkConfInfo cf' af').
Proof.
  unfold processConfigAndAuthFiles, readFile.
  destruct (ioutil_ReadFile env (nexusMigratorConfigFile fl))
    as [e|conf]; [discriminate|].
  cbn [cf af ci].
  destruct (json_Unmarshal_configFile env conf zero_configFile)
    as [cf' [e|]] eqn:Hc; [discriminate|].
  destruct (ioutil_ReadFile env (nexusMigratorAuthFile fl))
    as [e|auth]; [discriminate|].
  cbn [cf af ci].
  destruct (json_Unmarshal_authFile env auth zero_authFile)
    as [af' [e|]] eqn:Ha; [discriminate|].
  intros _. exists conf, cf', auth, af'. rewrite Hc, Ha.
  repeat split; reflexivity.
Qed.

(** X16. [processConfigAndAuthFiles] returns nil exactly when both files
    are read and both decode without error.  The decoding starts from
    zero-valued structures whatever the variables held before; on success
    [cf], [af] and [ci] hold the two decoded values; and on every failing
    path the error returned is that of the first step that failed and
    [ci] is left as it was. *)
Theorem processConfigAndAuthFiles_succeeds_iff (g : globals) :
  (snd (processConfigAndAuthFiles env fl g) = None
   <-> exists conf cf' auth af',
         ioutil_ReadFile env (nexusMigratorConfigFile fl) = inr conf
         /\ json_Unmarshal_configFile env conf zero_configFile = (cf', None)
         /\ ioutil_ReadFile env (nexusMigratorAuthFile fl) = inr auth
         /\ json_Unmarshal_authFile env auth zero_authFile = (af', None))
  /\ (forall conf cf' auth af',
        ioutil_ReadFile env (nexusMigratorConfigFile fl) = inr conf ->
        json_Unmarshal_configFile env conf zero_configFile = (cf', None) ->
        ioutil_ReadFile env (nexusMigratorAuthFile fl) = inr auth ->
        json_Unmarshal_authFile env auth zero_authFile = (af', None) ->
        fst (processConfigAndAuthFiles env fl g)
        = mkGlobals cf' af' (mkConfInfo cf' af'))
  /\ (forall err,
        snd (processConfigAndAuthFiles env fl g) = Some err ->
        ci (fst (processConfigAndAuthFiles env fl g)) = ci g)
  /\ (forall err,
        ioutil_ReadFile env (nexusMigratorConfigFile fl) = inl err ->
        snd (processConfigAndAuthFiles env fl g) = Some err)
  /\ (forall conf cf' err,
        ioutil_ReadFile env (nexusMigratorConfigFile fl) = inr conf ->
        json_Unmarshal_configFile env conf zero_configFile
        = (cf', Some err) ->
        snd (processConfigAndAuthFiles env fl g) = Some err)
  /\ (forall conf cf' err,
        ioutil_ReadFile env (nexusMigratorConfigFile fl) = inr conf ->
        json_Unmarshal_configFile env conf zero_configFile = (cf', None) ->
        ioutil_ReadFile env (nexusMigratorAuthFile fl) = inl err ->
        snd (processConfigAndAuthFiles env fl g) = Some err)
  /\ (forall conf cf' auth af' err,
        ioutil_ReadFile env (nexusMigratorConfigFile fl) = inr conf ->
        json_Unmarshal_configFile env conf zero_configFile = (cf', None) ->
        ioutil_ReadFile env (nexusMigratorAuthFile fl) = inr auth ->
        json_Unmarshal_authFile env auth zero_authFile
        = (af', Some err) ->
        snd (processConfigAndAuthFiles env fl g) = Some err).
Proof.
  split; [split|split; [|split; [|split; [|split; [|split]]]]].
  - intros H.
    destruct (processConfigAndAuthFiles_ok g H)
      as (conf & cf' & auth & af' & Hr & Hc & Hr' & Ha & _).
    now exists conf, cf', auth, af'.
  - intros (conf & cf' & auth & af' & Hr & Hc & Hr' & Ha).
    unfold processConfigAndAuthFiles, readFile. rewrite Hr.
    cbn [cf af ci]. rewrite Hc, Hr'. cbn [cf af ci]. now rewrite Ha.
  - intros conf cf' auth af' Hr Hc Hr' Ha.
    unfold processConfigAndAuthFiles, readFile. rewrite Hr.
    cbn [cf af ci]. rewrite Hc, Hr'. cbn [cf af ci]. now rewrite Ha.
  - intros err. apply processConfigAndAuthFiles_error_keeps_ci.
  - intros err Hr. unfold processConfigAndAuthFiles, readFile.
    now rewrite Hr.
  - intros conf cf' err Hr Hc. unfold processConfigAndAuthFiles, readFile.
    rewrite Hr. cbn [cf af ci]. now rewrite Hc.
  - intros conf cf' err Hr Hc Hr'.
    unfold processConfigAndAuthFiles, readFile. rewrite Hr.
    cbn [cf af ci]. rewrite Hc, Hr'. reflexivity.
  - intros conf cf' auth af' err Hr Hc Hr' Ha.
    unfold processConfigAndAuthFiles, readFile. rewrite Hr.
    cbn [cf af ci]. rewrite Hc, Hr'. cbn [cf af ci]. now rewrite Ha.
Qed.

Lemma spawn_loop_count (fuel : nat) (workers : Z) (stage : goroutine) :
  Z.to_nat workers < fuel ->
  count_occ goroutine_eq_dec (spawn_loop fuel workers) stage
  = Z.to_nat workers.
Proof.
  revert workers; induction fuel as [|fuel IH]; intros workers Hf; [lia|].
  cbn [spawn_loop]. destruct (workers <? 1)%Z eqn:Hw.
  - apply Z.ltb_lt in Hw. simpl. lia.
  - apply Z.ltb_ge in Hw. rewrite count_occ_app, IH by lia.
    replace (count_occ goroutine_eq_dec
               [go_downloader; go_unmarshaler; go_processor; go_streamer]
               stage) with 1 by now destruct stage.
    lia.
Qed.

(** X17. When both files load, [main] starts exactly [Workers]
    goroutines of each of the four stages, none at all when [Workers] is
    below 1, and seeds [downloadCh] with the one URL [SourceURL] of the
    decoded configuration. *)
Theorem main_starts_workers (g : globals) :
  processConfigAndAuthFiles env fl zero_globals = (g, None) ->
  exists started,
    main env fl = Serving started [SourceURL (cf g)]
    /\ (forall stage,
          count_occ goroutine_eq_dec started stage
          = Z.to_nat (Workers (cf g)))
    /\ ((Workers (cf g) < 1)%Z -> started = []).
Proof.
  intros H.
  destruct (processConfigAndAuthFiles_ok zero_globals)
    as (conf & cf' & auth & af' & _ & _ & _ & _ & Hg);
    [now rewrite H|].
  unfold main. rewrite H in *. simpl in Hg. subst g. cbn [ci cf ci_configFile].
  eexists. split; [reflexivity|]. split.
  - intros stage. apply spawn_loop_count. lia.
  - intros Hw. cbn [spawn_loop]. apply Z.ltb_lt in Hw. now rewrite Hw.
Qed.

End StartupMore.

Lemma main_starts_workers_witness :
  processConfigAndAuthFiles host_with_files default_flags zero_globals
  = (mkGlobals (ci_configFile sample_conf) (ci_authFile sample_conf)
               sample_conf, None)
  /\ exists started,
       main host_with_files default_flags
       = Serving started ["http://src/tree/"]
       /\ (forall stage, count_occ goroutine_eq_dec started stage = 2)
       /\ ((2 < 1)%Z -> started = []).
Proof.
  split; [reflexivity|].
  exact (main_starts_workers host_with_files default_flags _ eq_refl).
Defined.

(** ** The unmarshaler and the processor as loops *)

Section Loops.

Variable env : Env.
Variable c : confInfo.

Lemma unmarshaler_body_writes (data : string) :
  writes (unmarshaler_body env data).
Proof. unfold unmarshaler_body. repeat writes_step. Qed.

(** X18. For any sequence of bodies the unmarshaler sends exactly one
    message per body, in order: the decoded node to [processCh], or the
    decoding error to [errCh]; a body that does not decode is dropped and
    the ones after it are still handled. *)
Theorem unmarshaler_one_message_per_body (bodies : list string) :
  events (unmarshaler env bodies)
  = map (fun data => match json_Unmarshal_Data env data with
                     | inl err => Send_errCh err
                     | inr asset => Send_processCh asset
                     end) bodies
  /\ pending (unmarshaler env bodies) = [].
Proof.
  pose proof (for_range_appends (unmarshaler_body env) bodies
                unmarshaler_body_writes) as H.
  destruct (appends_events _ _ _ _ H) as (_ & He & Hp).
  unfold unmarshaler. rewrite He, Hp. clear. split.
  - induction bodies as [|b l IH]; simpl; [reflexivity|].
    rewrite IH. unfold unmarshaler_body.
    now destruct (json_Unmarshal_Data env b).
  - induction (rev bodies) as [|b l IH]; simpl; [reflexivity|].
    rewrite IH. unfold unmarshaler_body.
    now destruct (json_Unmarshal_Data env b).
Qed.

(** One turn of the processor only adds sends to the trace. *)
Lemma processor_body_appends (n : Asset) :
  exists r t, appends (processor_body c n) r t [].
Proof.
  unfold processor_body.
  destruct (hasArtifacts n).
  - destruct (getArtifacts n) as [paths|p].
    + do 2 eexists. intros fr. unfold bind. rewrite for_range_emit.
      reflexivity.
    + do 2 eexists. apply appends_ret.
  - destruct (getGroups n) as [groups|p].
    + do 2 eexists. intros fr. unfold bind. rewrite for_range_emit.
      reflexivity.
    + do 2 eexists. apply appends_ret.
Qed.

Lemma processor_body_panic_sends_nothing (n : Asset) (p : runtime_error) :
  fst (processor_body c n start) = Panics p ->
  events (processor_body c n) = [].
Proof.
  unfold events, processor_body. destruct (hasArtifacts n).
  - destruct (getArtifacts n) as [paths|q]; [|reflexivity].
    unfold bind. rewrite for_range_emit. discriminate.
  - destruct (getGroups n) as [groups|q]; [|reflexivity].
    unfold bind. rewrite for_range_emit. discriminate.
Qed.

(** X19. The processor handles the nodes it receives in order until a
    query panics: the nodes before the panic are handled in full, the
    node that panics sends nothing, and no node after it is looked at. *)
Theorem processor_stops_at_panic (good : list Asset) (bad : Asset)
  (rest : list Asset) (p : runtime_error) :
  Forall (fun n => fst (processor_body c n start) = Returns tt) good ->
  fst (processor_body c bad start) = Panics p ->
  fst (processor c (good ++ bad :: rest) start) = Panics p
  /\ events (processor c (good ++ bad :: rest))
     = flat_map (fun n => events (processor_body c n)) good.
Proof.
  intros Hgood Hbad.
  assert (G : forall fr,
             processor c (good ++ bad :: rest) fr
             = (Panics p,
                mkFrame (trace fr
                           ++ flat_map (fun n => events (processor_body c n))
                                       good)
                        (deferred fr))).
  { induction Hgood as [|n l Hn _ IH]; intros fr.
    - cbn [app processor flat_map]. unfold bind.
      destruct (processor_body_appends bad) as (r & t & Hb).
      destruct (appends_events _ _ _ _ Hb) as (Hr & Ht & _).
      rewrite Hb. rewrite Hbad in Hr. subst r.
      rewrite (processor_body_panic_sends_nothing _ _ Hbad) in Ht.
      subst t. unfold ret. simpl.
      now rewrite app_nil_r.
    - cbn [app processor flat_map]. unfold bind.
      destruct (processor_body_appends n) as (r & t & Hb).
      destruct (appends_events _ _ _ _ Hb) as (Hr & Ht & _).
      rewrite Hb. rewrite Hn in Hr. subst r. rewrite IH. simpl.
      now rewrite Ht, app_assoc. }
  unfold events. rewrite G. split; reflexivity.
Qed.

End Loops.

Lemma processor_stops_at_panic_witness :
  Forall (fun n => fst (processor_body sample_conf n start) = Returns tt)
         [releases_node]
  /\ fst (processor_body sample_conf leaf_without_path start)
     = Panics (SliceBoundsOutOfRange 1 0)
  /\ events (processor sample_conf
                       [releases_node; leaf_without_path; root_node])
     = [Send_streamCh
          (mkAssetToStream "http://src/get/releases/lib-1.0.jar"
                           "http://dst/repo/releases/lib-1.0.jar"
                           "application/java-archive");
        Send_streamCh
          (mkAssetToStream "http://src/get/releases/lib-1.0.pom"
                           "http://dst/repo/releases/lib-1.0.pom"
                           "application/xml")].
Proof.
  assert (H : Forall (fun n => fst (processor_body sample_conf n start)
                               = Returns tt) [releases_node])
    by (repeat constructor).
  split; [exact H|]. split; [reflexivity|].
  exact (proj2 (processor_stops_at_panic sample_conf [releases_node]
                  leaf_without_path [root_node]
                  (SliceBoundsOutOfRange 1 0) H eq_refl)).
Defined.
